(** * Recipe recommendation engine: the ingredient matcher and the
      filter / score / rank pipeline of [ai model/incase.py].

    The development embeds [ingredient_match_score] and the body of
    [get_recommendations] and settles the properties that the design
    document states about them.

    Conventions of the embedding.
    - A Python [str] is a [string]; the text is taken to be ASCII, so
      [str.lower] maps the letters A-Z and [str.strip] removes the ASCII
      characters for which [str.isspace] holds.
    - A Python [set] of strings is a [gset string], the substitution
      dictionary a [gmap string (list string)].
    - A Python [float] is an IEEE binary64 number ([PrimFloat.float]) with
      the operations of the processor; what is proved about them rests on
      their specification in [FloatAxioms].
    - A [len] is a [nat], below 2^63 as in CPython; where an [int] meets a
      [float] it is converted as [float(n)] does.
    - The recipe table is a list of rows, a column a field of the row.
    - The classifiers and the ranking model are parameters; a call to one of
      them may raise, and every call is recorded in a log, so that a run can
      be asked which oracles it called. *)

From Stdlib Require Import ZArith Floats Uint63 String Ascii.
From stdpp Require Import gmap strings list.

Set Warnings "-inexact-float".
Set Default Proof Using "Type".

Local Open Scope string_scope.
Local Open Scope list_scope.

(** ** Strings: [str.lower] and [str.strip] *)

Definition lower_char (c : ascii) : ascii :=
  let n := N_of_ascii c in
  if ((65 <=? n) && (n <=? 90))%N then ascii_of_N (n + 32) else c.

Fixpoint py_lower (s : string) : string :=
  match s with
  | EmptyString => EmptyString
  | String c s' => String (lower_char c) (py_lower s')
  end.

(** [str.isspace] on one ASCII character: tab, line feed, vertical tab, form
    feed, carriage return, the four separators 28-31 and the blank. *)
Definition py_isspace (c : ascii) : bool :=
  let n := N_of_ascii c in
  (((9 <=? n) && (n <=? 13)) || ((28 <=? n) && (n <=? 32)))%N.

Fixpoint py_lstrip (s : string) : string :=
  match s with
  | EmptyString => EmptyString
  | String c s' => if py_isspace c then py_lstrip s' else s
  end.

Fixpoint py_rstrip (s : string) : string :=
  match s with
  | EmptyString => EmptyString
  | String c s' =>
      match py_rstrip s' with
      | EmptyString => if py_isspace c then EmptyString else String c EmptyString
      | r => String c r
      end
  end.

Definition py_strip (s : string) : string := py_rstrip (py_lstrip s).

(** [i.lower().strip()], the normal form under which ingredients are compared. *)
Definition normalize (s : string) : string := py_strip (py_lower s).

(** ** Numbers *)

(** [float(n)] for a length [n]. *)
Definition of_len (n : nat) : float :=
  PrimFloat.of_uint63 (Uint63.of_Z (Z.of_nat n)).

(** ** Constants of the module *)

Definition SUBSTITUTIONS : gmap string (list string) :=
  list_to_map [
    ("milk", ["almond milk"; "soy milk"; "oat milk"; "coconut milk"]);
    ("butter", ["margarine"; "coconut oil"; "olive oil"]);
    ("sugar", ["honey"; "maple syrup"; "agave nectar"; "brown sugar"]);
    ("egg", ["egg substitute"; "flax egg"]);
    ("flour", ["almond flour"; "coconut flour"; "whole wheat flour"]);
    ("salt", ["sea salt"; "kosher salt"]);
    ("baking powder", ["baking soda"]);
    ("cheese", ["colby jack"; "monterey jack"; "cheddar"; "mozzerella"]);
    ("cream", ["coconut cream"; "cashew cream"; "sour cream"]);
    ("vanilla extract", ["vanilla bean"; "vanilla paste"]);
    ("oil", ["canola oil"; "vegetable oil"])
  ].

Definition SAMPLE_INGREDIENTS : list string := ["yeast"; "flour"].

Definition DEFAULT_INGREDIENTS : gset string :=
  list_to_set ["salt"; "water"; "oil"; "pepper"; "warm water";
               "salt and pepper"; "salt pepper"].

(** ** The match scorer *)

(** [min(a, b)] of Python: the first argument unless the second is smaller. *)
Definition py_min (a b : float) : float := if (b <? a)%float then b else a.

Definition user_explicit (user_ingredients : list string) : gset string :=
  list_to_set (normalize <$> user_ingredients).

Definition augmented_user_set (user_ingredients : list string) : gset string :=
  user_explicit user_ingredients ∪ DEFAULT_INGREDIENTS.

Definition recipe_non_default (recipe_ingredients : list string) : gset string :=
  list_to_set
    (filter (λ r, r ∉ DEFAULT_INGREDIENTS) (normalize <$> recipe_ingredients)).

(** [any(sub.lower().strip() in augmented for sub in subs)] *)
Definition any_substitute (augmented : gset string) (subs : list string) : bool :=
  existsb (λ sub, bool_decide (normalize sub ∈ augmented)) subs.

(** One turn of the loop over the recipe's ingredients. *)
Definition match_step (augmented : gset string) (substitutions_allowed : bool)
    (matched : float) (ingr : string) : float :=
  let ingr_norm := normalize ingr in
  if bool_decide (ingr_norm ∈ augmented) then (matched + 1)%float
  else if substitutions_allowed && bool_decide (is_Some (SUBSTITUTIONS !! ingr_norm)) then
    if any_substitute augmented (SUBSTITUTIONS !!! ingr_norm)
    then (matched + 0.5)%float
    else matched
  else matched.

Definition matched_sum (augmented : gset string) (substitutions_allowed : bool)
    (recipe_ingredients : list string) : float :=
  fold_left (match_step augmented substitutions_allowed) recipe_ingredients 0%float.

(** [sum(1 for ingr in recipe_ingredients if ingr.lower().strip() in user_explicit)] *)
Definition used_explicit (explicit : gset string) (recipe_ingredients : list string) : nat :=
  length (filter (λ ingr, normalize ingr ∈ explicit) recipe_ingredients).

(** [used_explicit / len(user_explicit)], or 0.0 for an empty set.  Both
    operands are ints; as lengths they are below 2^53, where the quotient of
    two ints is the quotient of their conversions to float. *)
Definition bonus_of (explicit : gset string) (recipe_ingredients : list string) : float :=
  if bool_decide (explicit ≠ ∅)
  then (of_len (used_explicit explicit recipe_ingredients) / of_len (size explicit))%float
  else 0%float.

Definition ingredient_match_score (user_ingredients recipe_ingredients : list string)
    (substitutions_allowed user_willing_to_buy_more : bool) (beta : float) : float :=
  let explicit := user_explicit user_ingredients in
  let augmented := augmented_user_set user_ingredients in
  let non_default := recipe_non_default recipe_ingredients in
  if negb user_willing_to_buy_more then
    if negb (bool_decide (non_default ⊆ explicit)) then 0%float else 1%float
  else
    let total := length recipe_ingredients in
    if Nat.eqb total 0 then 1%float
    else
      let matched := matched_sum augmented substitutions_allowed recipe_ingredients in
      let base_score := (matched / of_len total)%float in
      let bonus := bonus_of explicit recipe_ingredients in
      let bonus_factor := (1 + beta * bonus)%float in
      let final_score := (base_score * bonus_factor)%float in
      py_min final_score 1%float.

(** The strict gate in words: every recipe ingredient that is not a default
    one is, after normalisation, one of the user's normalised ingredients. *)
Definition strict_feasible (user_ingredients recipe_ingredients : list string) : Prop :=
  ∀ r, r ∈ recipe_ingredients → normalize r ∉ DEFAULT_INGREDIENTS →
       ∃ u, u ∈ user_ingredients ∧ normalize u = normalize r.

(** ** The recommendation pipeline: [get_recommendations] *)

(** A cell of the recipe table that should hold a list: [Some l] when it does,
    [None] when it holds something that is neither a list nor text.  A cell
    holding the text of a list literal stands for the list it denotes; the
    [eval] of that text is not part of the embedding. *)
Definition cell : Type := option (list string).

Record recipe := {
  id : Z;
  name : string;
  ingredients : cell;
  ingredients_raw : cell;
  steps : cell
}.

(** A row once the text columns of step 1 are in place. *)
Record row := {
  src : recipe;
  ingredients_list : list string;      (* column 'ingredients' after line 210 *)
  ingredients_raw_text : string;
  ingredients_text : string;
  steps_text : string;
  full_text : string
}.

(** A row with the two predicted labels. *)
Record labelled := {
  l_row : row;
  predicted_cuisine : string;
  predicted_meal_type : string
}.

(** [" ".join(x) if isinstance(x, list) else ""] *)
Definition join_cell (x : cell) : string :=
  match x with
  | Some l => String.concat " " l
  | None => ""
  end.

Definition prepare (r : recipe) : row :=
  let ingr := default [] (ingredients r) in
  let raw_text := join_cell (ingredients_raw r) in
  let ingr_text := String.concat " " ingr in
  let st_text := join_cell (steps r) in
  {| src := r;
     ingredients_list := ingr;
     ingredients_raw_text := raw_text;
     ingredients_text := ingr_text;
     steps_text := st_text;
     full_text := ingr_text +:+ " " +:+ raw_text +:+ " " +:+ st_text |}.

Definition USER_TO_CATEGORY : gmap string string :=
  list_to_map [
    ("Breakfast", "breakfast");
    ("Full Meal", "meals");
    ("Sweet Treat", "sweet treat");
    ("Snack", "snacks")
  ].

Definition batch_size : nat := 500.

(** [range(0, n, batch_size)] *)
Definition batch_starts (n : nat) : list nat :=
  (λ k, k * batch_size) <$> seq 0 ((n + batch_size - 1) / batch_size).

(** [col.iloc[i:j]] *)
Definition iloc_slice {X : Type} (col : list X) (i j : nat) : list X :=
  take (j - i) (drop i col).

(** The batches that one prediction loop hands to its classifier. *)
Definition batches (col : list string) : list (list string) :=
  (λ i, iloc_slice col i (i + batch_size)) <$> batch_starts (length col).

(** [lst.index(x)] for the first position of [x], if any. *)
Fixpoint index_of (x : Z) (l : list Z) : option nat :=
  match l with
  | [] => None
  | y :: l' => if bool_decide (y = x) then Some 0 else S <$> index_of x l'
  end.

(** How a computation that may raise ends. *)
Inductive outcome (X : Type) :=
| Returned (x : X)
| Raised.
Arguments Returned {X} x.
Arguments Raised {X}.

Section Pipeline.
(** What [get_user_preferences] hands over.  The two keys read with
    [prefs[...]] are always there, the others are read with [prefs.get]. *)
Record preferences := {
  cuisine : string;
  meal_type : string;
  servings : option float;
  pref_ingredients : option (list string);
  allow_substitutions : option bool;
  use_grocery : option bool
}.

(** [prefs["ingredients"] = v] *)
Definition set_ingredients (prefs : preferences) (v : list string) : preferences :=
  {| cuisine := cuisine prefs;
     meal_type := meal_type prefs;
     servings := servings prefs;
     pref_ingredients := Some v;
     allow_substitutions := allow_substitutions prefs;
     use_grocery := use_grocery prefs |}.

(** A row that reached the scoring step.  The column 'final_score' is a
    function of the other two. *)
Record candidate := {
  c_row : labelled;
  ingredient_score : float;
  model_score : float
}.

Definition final_score (c : candidate) : float :=
  (ingredient_score c * 0.95 + model_score c * 0.05)%float.

Definition set_model_score (v : float) (c : candidate) : candidate :=
  {| c_row := c_row c; ingredient_score := ingredient_score c; model_score := v |}.

Definition c_id (c : candidate) : Z := id (src (l_row (c_row c))).

(** The calls to the three oracles, as the run makes them. *)
Inductive call :=
| CuisinePredict (batch : list string)
| MealPredict (batch : list string)
| Infer (texts : list string) (servings_column : list float).

(** A computation may raise, and it records its oracle calls. *)
Definition M (X : Type) : Type := list call → outcome X * list call.

#[export] Instance M_ret : MRet M := λ X x log, (Returned x, log).
#[export] Instance M_bind : MBind M := λ X Y k m log,
  match m log with
  | (Returned x, log') => k x log'
  | (Raised, log') => (Raised, log')
  end.

Definition raise {X : Type} : M X := λ log, (Raised, log).

(** One oracle call: it is recorded, and it raises when the oracle does. *)
Definition invoke {X : Type} (c : call) (answer : option X) : M X :=
  λ log, (match answer with Some x => Returned x | None => Raised end, log ++ [c]).

(** The collaborators that [load_model_files] returns, and two library
    routines whose result is only partly fixed by their documentation:
    the order in which a [set] is listed, and [DataFrame.sort_values] with
    its default kind. *)
Variable cuisine_clf : list string → option (list string).
Variable meal_clf : list string → option (list string).
Variable infer : list string → list float → option (list (list float)).
Variable classes_ : list Z.
Variable list_of_set : gset string → list string.
Variable sort_values : list candidate → list candidate.

(** [for i in range(0, len(col), batch_size): out.extend(clf.predict(batch))] *)
Fixpoint predict_loop (mk : list string → call) (clf : list string → option (list string))
    (bs : list (list string)) (out : list string) : M (list string) :=
  match bs with
  | [] => mret out
  | batch :: bs' =>
      predictions ← invoke (mk batch) (clf batch);
      predict_loop mk clf bs' (out ++ predictions)
  end.

(** [df[column] = values]: the lengths must agree. *)
Fixpoint assign_labels (rows : list row) (cs ms : list string) : option (list labelled) :=
  match rows, cs, ms with
  | [], [], [] => Some []
  | r :: rows', c :: cs', m :: ms' =>
      (λ rest, {| l_row := r; predicted_cuisine := c; predicted_meal_type := m |} :: rest)
        <$> assign_labels rows' cs' ms'
  | _, _, _ => None
  end.

Definition selected_cuisine (prefs : preferences) : string := py_lower (cuisine prefs).

Definition selected_meal_type (prefs : preferences) : string :=
  default "unknown" (USER_TO_CATEGORY !! meal_type prefs).

Definition label_match (prefs : preferences) (r : labelled) : bool :=
  bool_decide (py_lower (predicted_cuisine r) = selected_cuisine prefs) &&
  bool_decide (py_lower (predicted_meal_type r) = selected_meal_type prefs).

(** Step 1: the text columns, the two prediction loops and the filter. *)
Definition corpus_filter (recipe_db : list recipe) (prefs : preferences) : M (list labelled) :=
  let rows := prepare <$> recipe_db in
  cuisines ← predict_loop CuisinePredict cuisine_clf
                (batches (ingredients_raw_text <$> rows)) [];
  if negb (Nat.eqb (length cuisines) (length rows)) then raise else
  meal_types ← predict_loop MealPredict meal_clf (batches (full_text <$> rows)) [];
  match assign_labels rows cuisines meal_types with
  | None => raise
  | Some labelled_rows => mret (filter (λ r, label_match prefs r) labelled_rows)
  end.

(** The ingredient list that is scored for one row. *)
Definition effective_ingredients (r : row) : list string :=
  match ingredients_raw (src r) with
  | Some raw_ingr =>
      list_of_set (list_to_set (ingredients_list r) ∪ list_to_set raw_ingr)
  | None => ingredients_list r
  end.

Definition user_ingredients_of (prefs : preferences) : list string :=
  default [] (pref_ingredients prefs).

Definition flag (b : option bool) : bool := default false b.

(** Step 2: one score per matching row. *)
Definition score_rows (prefs : preferences) (matching : list labelled) : list candidate :=
  (λ r, {| c_row := r;
           ingredient_score :=
             ingredient_match_score (user_ingredients_of prefs)
               (effective_ingredients (l_row r))
               (flag (allow_substitutions prefs)) (flag (use_grocery prefs)) 0.2%float;
           model_score := 0%float |}) <$> matching.

(** [df[df['ingredient_score'] > 0]] *)
Definition positive_scores (cands : list candidate) : list candidate :=
  filter (λ c, (0 <? ingredient_score c)%float = true) cands.

(** The loop that copies the oracle's scores into the column 'model_score'. *)
Fixpoint assign_model_scores (predictions : list (list float)) (ids : list (nat * Z))
    (cands : list candidate) : option (list candidate) :=
  match ids with
  | [] => Some cands
  | (i, recipe_id) :: ids' =>
      match index_of recipe_id classes_ with
      | None => assign_model_scores predictions ids' cands
      | Some j =>
          match predictions !! i ≫= (λ line, line !! j) with
          | None => None
          | Some v =>
              assign_model_scores predictions ids'
                ((λ c, if bool_decide (c_id c = recipe_id) then set_model_score v c else c)
                   <$> cands)
          end
      end
  end.

(** What the function returns: [(top_recipe, other_recipes)]. *)
Definition result : Type := option candidate * option (list candidate).

Definition empty_result : result := (None, None).

(** Step 3: the ranking oracle, the final score, the sort and the cut. *)
Definition rank (prefs : preferences) (cands : list candidate) : M result :=
  let X_text := (λ c, full_text (l_row (c_row c))) <$> cands in
  let requested_servings := default 4%float (servings prefs) in
  let X_servings := replicate (length cands) requested_servings in
  predictions ← invoke (Infer X_text X_servings) (infer X_text X_servings);
  match assign_model_scores predictions (imap (λ i c, (i, c_id c)) cands) cands with
  | None => raise
  | Some scored =>
      let ranked_recipes := sort_values scored in
      match ranked_recipes with
      | top_recipe :: rest =>
          mret (Some top_recipe, Some (iloc_slice ranked_recipes 1 11))
      | [] => mret empty_result
      end
  end.

(** The body of the [try] block. *)
Definition recommend (recipe_db : list recipe) (prefs0 : preferences) : M result :=
  let prefs := set_ingredients prefs0 SAMPLE_INGREDIENTS in
  matching_recipes ← corpus_filter recipe_db prefs;
  if Nat.eqb (length matching_recipes) 0 then mret empty_result else
  let scored := score_rows prefs matching_recipes in
  if negb (flag (use_grocery prefs)) then
    let kept := positive_scores scored in
    if Nat.eqb (length kept) 0 then mret empty_result else rank prefs kept
  else rank prefs scored.

(** [try: ... except Exception: return None, None], with the calls made. *)
Definition get_recommendations (recipe_db : list recipe) (prefs : preferences)
    : result * list call :=
  match recommend recipe_db prefs [] with
  | (Returned r, log) => (r, log)
  | (Raised, log) => (empty_result, log)
  end.
End Pipeline.

(** ** What the library routines promise, and the properties in question *)




(** [list(s)] lists the members of a set once each, in an order of its own. *)
Definition list_of_set_spec (list_of_set : gset string → list string) : Prop :=
  ∀ X, list_of_set X ≡ₚ elements X.


(** An insertion sort by descending final score, the sort of the examples. *)
Fixpoint insert_desc (c : candidate) (l : list candidate) : list candidate :=
  match l with
  | [] => [c]
  | d :: l' =>
      if (final_score c <? final_score d)%float then d :: insert_desc c l' else c :: l
  end.

Definition insertion_sort (l : list candidate) : list candidate :=
  foldr insert_desc [] l.

(** What an oracle answered to a recorded call. *)
Definition answered
    (cuisine_clf meal_clf : list string → option (list string))
    (infer : list string → list float → option (list (list float))) (c : call) : Prop :=
  match c with
  | CuisinePredict batch => is_Some (cuisine_clf batch)
  | MealPredict batch => is_Some (meal_clf batch)
  | Infer texts servings_column => is_Some (infer texts servings_column)
  end.

Definition is_infer (c : call) : bool :=
  match c with
  | Infer _ _ => true
  | _ => false
  end.

(** A computation only adds calls that satisfy [P], and when it returns,
    every call it added satisfies [Q] as well. *)
Definition emits {X : Type} (P Q : call → Prop) (m : M X) : Prop :=
  ∀ log, ∃ new, (m log).2 = log ++ new ∧ Forall P new ∧
                ((∃ x, (m log).1 = Returned x) → Forall Q new).

(** The filter as the design document words it: one feature text per recipe,
    handed to the cuisine classifier and to the meal-type classifier alike. *)
Definition corpus_filter_one_text
    (cuisine_clf meal_clf : list string → option (list string))
    (recipe_db : list recipe) (prefs : preferences) : M (list labelled) :=
  let rows := prepare <$> recipe_db in
  cuisines ← predict_loop CuisinePredict cuisine_clf (batches (full_text <$> rows)) [];
  if negb (Nat.eqb (length cuisines) (length rows)) then raise else
  meal_types ← predict_loop MealPredict meal_clf (batches (full_text <$> rows)) [];
  match assign_labels rows cuisines meal_types with
  | None => raise
  | Some labelled_rows => mret (filter (λ r, label_match prefs r) labelled_rows)
  end.

(** ** Finding and loading the model files: [find_file], [load_model_files] *)

(** How [load_model_files] ends when it does not return: by one of its own
    [raise FileNotFoundError(message)], or by an exception of a loader. *)
Inductive load_failure :=
| FileNotFoundError (message : string)
| LoaderRaised.

(** [infer, le_recipe.classes_, cuisine_clf, meal_clf, recipe_db] *)
Record model_files := {
  mf_infer : list string → list float → option (list (list float));
  mf_classes_ : list Z;
  mf_cuisine_clf : list string → option (list string);
  mf_meal_clf : list string → option (list string);
  mf_recipe_db : list recipe
}.

(** [if not path: raise FileNotFoundError(message)]; a path is false when it
    is [None] or the empty string. *)
Definition required (path : option string) (message : string) : load_failure + string :=
  match path with
  | Some p => if bool_decide (p = "") then inl (FileNotFoundError message) else inr p
  | None => inl (FileNotFoundError message)
  end.

(** The result of a loader, which may raise. *)
Definition loaded {X : Type} (x : option X) : load_failure + X :=
  match x with
  | Some v => inr v
  | None => inl LoaderRaised
  end.

Definition and_then {X Y : Type} (m : load_failure + X) (k : X → load_failure + Y)
    : load_failure + Y :=
  match m with
  | inl e => inl e
  | inr x => k x
  end.

Definition models_dir : string := ".".
Definition ai_models_dir : string := "ai model".

Section Files.
(** The file system as the module sees it, and the loaders of the libraries. *)
Variable os_path_join : string → string → string.
Variable os_path_exists : string → bool.
Variable saved_model_load :
  string → option (list string → list float → option (list (list float))).
Variable pickle_load_encoder : string → option (list Z).
Variable joblib_load : string → option (list string → option (list string)).
Variable pickle_load_table : string → option (list recipe).
Variable read_csv : string → option (list recipe).
Variable list_of_set : gset string → list string.
Variable sort_values : list candidate → list candidate.

(** The inner loop of [find_file], over the file names. *)
Fixpoint find_in_directory (directory : string) (filenames : list string) : option string :=
  match filenames with
  | [] => None
  | filename :: filenames' =>
      let path := os_path_join directory filename in
      if os_path_exists path then Some path
      else find_in_directory directory filenames'
  end.

Fixpoint find_file (filenames directories : list string) : option string :=
  match directories with
  | [] => None
  | directory :: directories' =>
      match find_in_directory directory filenames with
      | Some path => Some path
      | None => find_file filenames directories'
      end
  end.

(** The last step of [load_model_files]: the pickled table, or else the CSV. *)
Definition load_recipe_db : load_failure + list recipe :=
  match find_file ["recipe_database.pkl"] [models_dir; ai_models_dir] with
  | Some recipe_db_path =>
      if bool_decide (recipe_db_path = "")
      then
        and_then
          (required (find_file ["recipes_ingredients.csv"] [models_dir; ai_models_dir])
             "Recipe database not found")
          (λ recipe_path, loaded (read_csv recipe_path))
      else loaded (pickle_load_table recipe_db_path)
  | None =>
      and_then
        (required (find_file ["recipes_ingredients.csv"] [models_dir; ai_models_dir])
           "Recipe database not found")
        (λ recipe_path, loaded (read_csv recipe_path))
  end.

Definition load_model_files : load_failure + model_files :=
  let model_dir := os_path_join ai_models_dir "recipe_model_tf" in
  if negb (os_path_exists model_dir)
  then inl (FileNotFoundError ("SavedModel directory not found: " +:+ model_dir))
  else
    and_then (loaded (saved_model_load model_dir)) (λ infer,
    and_then (required (find_file ["le_recipe.pkl"] [models_dir; ai_models_dir])
                "Label encoder file not found") (λ le_path,
    and_then (loaded (pickle_load_encoder le_path)) (λ classes_,
    and_then (required (find_file ["cuisine_clf.joblib"] [models_dir; ai_models_dir])
                "Cuisine classifier not found") (λ cuisine_path,
    and_then (loaded (joblib_load cuisine_path)) (λ cuisine_clf,
    and_then (required (find_file ["recipe_category_clf.joblib"] [models_dir; ai_models_dir])
                "Meal type classifier not found") (λ meal_path,
    and_then (loaded (joblib_load meal_path)) (λ meal_clf,
    and_then load_recipe_db (λ recipe_db,
    inr {| mf_infer := infer; mf_classes_ := classes_;
           mf_cuisine_clf := cuisine_clf; mf_meal_clf := meal_clf;
           mf_recipe_db := recipe_db |})))))))).

(** The whole of [get_recommendations]: the files are loaded inside the
    [try] block, so a failure to load ends like any other exception. *)
Definition get_recommendations_from_files (prefs : preferences) : result * list call :=
  match load_model_files with
  | inl _ => (empty_result, [])
  | inr files =>
      get_recommendations (mf_cuisine_clf files) (mf_meal_clf files) (mf_infer files)
        (mf_classes_ files) list_of_set sort_values (mf_recipe_db files) prefs
  end.
End Files.

(** ** The ingredient list of the generator tab: [render_generator_tab] *)

(** [for x in new: if x not in current: current.append(x)] *)
Definition append_missing (current new : list string) : list string :=
  fold_left (λ cur x, if bool_decide (x ∈ cur) then cur else cur ++ [x]) new current.

(** Lines 94-100: the names the recogniser detected join the list. *)
Definition add_detected (current_ingredients : list string)
    (detected : list (string * float)) : list string :=
  let new_ingredients := fst <$> detected in
  append_missing current_ingredients new_ingredients.

(** Lines 136-145: the names whose delete button was pressed. *)
Definition ingredients_to_remove (pressed : nat → bool) (current_ingredients : list string)
    : list string :=
  snd <$> filter (λ p, pressed p.1 = true) (imap pair current_ingredients).

(** Lines 148-152 *)
Definition remove_pressed (pressed : nat → bool) (current_ingredients : list string)
    : list string :=
  let to_remove := ingredients_to_remove pressed current_ingredients in
  if bool_decide (to_remove ≠ [])
  then filter (λ ing, ing ∉ to_remove) current_ingredients
  else current_ingredients.

(** [s.split(sep)] for a separator of one character. *)
Fixpoint py_split (sep : ascii) (s : string) : list string :=
  match s with
  | EmptyString => [EmptyString]
  | String c s' =>
      if Ascii.eqb c sep then EmptyString :: py_split sep s'
      else
        match py_split sep s' with
        | [] => [String c EmptyString]
        | w :: ws => String c w :: ws
        end
  end.

(** [s.startswith("-")] *)
Definition startswith_minus (s : string) : bool :=
  match s with
  | EmptyString => false
  | String c _ => Ascii.eqb c "-"
  end.

(** [s[1:]] *)
Definition from_1 (s : string) : string :=
  match s with
  | EmptyString => EmptyString
  | String _ s' => s'
  end.

(** Lines 159-160 *)
Definition additions (new_ingredient : string) : list string :=
  (λ x, py_lower (py_strip x)) <$>
    filter (λ x, py_strip x ≠ "" ∧ startswith_minus (py_strip x) = false)
      (py_split "," new_ingredient).

(** Lines 163-164 *)
Definition removals (new_ingredient : string) : list string :=
  (λ x, from_1 (py_lower (py_strip x))) <$>
    filter (λ x, py_strip x ≠ "" ∧ startswith_minus (py_strip x) = true)
      (py_split "," new_ingredient).

(** Lines 167-174: the additions join the list, then the removals leave it. *)
Definition update_ingredients (new_ingredient : string) (current_ingredients : list string)
    : list string :=
  let added :=
    fold_left
      (λ cur ing, if bool_decide (ing ≠ "") && bool_decide (ing ∉ cur)
                  then cur ++ [ing] else cur)
      (additions new_ingredient) current_ingredients in
  filter (λ ing, ing ∉ removals new_ingredient) added.

(** Lines 187-201: the list with the pantry and the grocery list.  The two
    check boxes are shown only for a list that is not empty, and the one for
    the grocery list only when the preferences ask for it. *)
Definition combined_ingredients (prefs : preferences)
    (current_ingredients pantry grocery : list string)
    (include_pantry include_grocery : bool) : list string :=
  let combined := current_ingredients in
  let combined :=
    if bool_decide (pantry ≠ []) && include_pantry
    then append_missing combined pantry else combined in
  if flag (use_grocery prefs) && bool_decide (grocery ≠ []) && include_grocery
  then append_missing combined grocery else combined.

(** ** Floats by their specification *)

(** A float that is not NaN and not negative. *)
Definition nn (x : spec_float) : Prop :=
  match x with
  | S754_zero _ => True
  | S754_infinity s | S754_finite s _ _ => s = false
  | S754_nan => False
  end.

(** Zero, or a positive finite float below [2 ^ K]. *)
Definition mag_le (K : Z) (x : spec_float) : Prop :=
  match x with
  | S754_zero _ => True
  | S754_finite false m e => (Zdigits2 (Zpos m) + e ≤ K)%Z
  | _ => False
  end.

(** A positive finite float in [2 ^ (lo - 1), 2 ^ hi). *)
Definition pos_mag (lo hi : Z) (x : spec_float) : Prop :=
  match x with
  | S754_finite false m e => (lo ≤ Zdigits2 (Zpos m) + e ≤ hi)%Z
  | _ => False
  end.

(** The float 1.0 as [Prim2SF] gives it. *)
Definition SF_one : spec_float := S754_finite false 4503599627370496 (-52).

(** The float of a whole number below 2^53: zero, or a mantissa of 53 bits
    that holds the number, shifted. *)
Definition SF_whole (v : Z) (x : spec_float) : Prop :=
  match x with
  | S754_zero s => s = false ∧ v = 0%Z
  | S754_finite false m e =>
      (e ≤ 0 ∧ Zdigits2 (Zpos m) = 53 ∧ Zpos m = v * 2 ^ (- e))%Z
  | _ => False
  end.

(** ** A small corpus and collaborators for the examples *)

Module Sample.
Definition bread : recipe :=
  {| id := 1; name := "bread";
     ingredients := Some ["flour"; "water"; "yeast"];
     ingredients_raw := Some ["Flour"; "warm water"];
     steps := Some ["mix"; "bake"] |}.

Definition cake : recipe :=
  {| id := 2; name := "cake";
     ingredients := Some ["flour"; "egg"; "sugar"];
     ingredients_raw := Some ["egg"];
     steps := Some ["whisk"] |}.

Definition corpus : list recipe := [bread; cake].

(** Classifiers that give every text the same label. *)
Definition always (label : string) (batch : list string) : option (list string) :=
  Some ((λ _, label) <$> batch).

(** A cuisine classifier that reads its text. *)
Definition cuisine_by_text (batch : list string) : option (list string) :=
  Some ((λ t, if String.eqb t "Flour warm water" then "French" else "Thai") <$> batch).

(** A classifier whose call raises. *)
Definition failing (batch : list string) : option (list string) := None.

(** A ranking oracle over the classes [2; 1]. *)
Definition relevance (texts : list string) (servings_column : list float)
    : option (list (list float)) :=
  Some ((λ _, [0.25%float; 0.75%float]) <$> texts).

Definition classes : list Z := [2%Z; 1%Z].

Definition strict_prefs : preferences :=
  {| cuisine := "French"; meal_type := "Snack"; servings := None;
     pref_ingredients := None; allow_substitutions := None; use_grocery := None |}.

Definition shopping_prefs : preferences :=
  {| cuisine := "French"; meal_type := "Snack"; servings := Some 2%float;
     pref_ingredients := None; allow_substitutions := Some true;
     use_grocery := Some true |}.

Definition thai_prefs : preferences :=
  {| cuisine := "Thai"; meal_type := "Snack"; servings := None;
     pref_ingredients := None; allow_substitutions := None; use_grocery := None |}.

Definition labelled_of (r : recipe) : labelled :=
  {| l_row := prepare r; predicted_cuisine := "French"; predicted_meal_type := "snacks" |}.

(** Two rows with the same final score. *)
Definition tie_a : candidate :=
  {| c_row := labelled_of bread; ingredient_score := 1%float; model_score := 0%float |}.
Definition tie_b : candidate :=
  {| c_row := labelled_of cake; ingredient_score := 1%float; model_score := 0%float |}.
End Sample.

(** A disk, loaders and a tab session for the examples. *)
Module SampleDisk.
Import Sample.

Definition join (a b : string) : string := a +:+ "/" +:+ b.

Definition disk : list string :=
  ["ai model/recipe_model_tf"; "./le_recipe.pkl"; "ai model/le_recipe.pkl";
   "ai model/cuisine_clf.joblib"; "./recipe_category_clf.joblib";
   "ai model/recipe_database.pkl"; "./recipes_ingredients.csv"].

Definition on_disk (path : string) : bool := bool_decide (path ∈ disk).

Definition nothing_on_disk (path : string) : bool := false.

Definition saved_model (path : string)
    : option (list string → list float → option (list (list float))) :=
  Some relevance.

Definition encoder (path : string) : option (list Z) := Some classes.

Definition classifier (path : string) : option (list string → option (list string)) :=
  Some (if String.eqb path "ai model/cuisine_clf.joblib"
        then always "French" else always "snacks").

Definition pickled_table (path : string) : option (list recipe) := Some corpus.

Definition csv_table (path : string) : option (list recipe) := Some [cake].

Definition loaded_files : model_files :=
  {| mf_infer := relevance; mf_classes_ := classes;
     mf_cuisine_clf := always "French"; mf_meal_clf := always "snacks";
     mf_recipe_db := corpus |}.

(** An oracle whose answer has no line, and a classifier that gives no label. *)
Definition no_lines (texts : list string) (servings_column : list float)
    : option (list (list float)) := Some [].

Definition no_labels (batch : list string) : option (list string) := Some [].

Definition dinner_prefs : preferences :=
  {| cuisine := "French"; meal_type := "Dinner"; servings := None;
     pref_ingredients := None; allow_substitutions := None; use_grocery := None |}.

(** [strict_prefs] in other words: the cuisine in capitals, the flags spelt
    out, and a list of ingredients. *)
Definition loud_prefs : preferences :=
  {| cuisine := "FRENCH"; meal_type := "Snack"; servings := Some 4%float;
     pref_ingredients := Some ["truffle"]; allow_substitutions := Some false;
     use_grocery := Some false |}.

Definition pressed_first (i : nat) : bool := Nat.eqb i 0.
End SampleDisk.

(** ** Facts about the scorer *)

Lemma elem_of_user_explicit user x :
  x ∈ user_explicit user ↔ ∃ u, u ∈ user ∧ normalize u = x.
Proof.
  unfold user_explicit. rewrite elem_of_list_to_set, list_elem_of_fmap.
  split; intros (u & H1 & H2); exists u; auto.
Qed.

Lemma elem_of_recipe_non_default recipe x :
  x ∈ recipe_non_default recipe ↔
  (x ∉ DEFAULT_INGREDIENTS) ∧ ∃ r, r ∈ recipe ∧ normalize r = x.
Proof.
  unfold recipe_non_default.
  rewrite elem_of_list_to_set, list_elem_of_filter, list_elem_of_fmap.
  split.
  - intros (Hd & r & -> & Hr). split; [done|]. by exists r.
  - intros (Hd & r & Hr & <-). split; [done|]. by exists r.
Qed.

Lemma strict_feasible_subseteq user recipe :
  strict_feasible user recipe ↔ recipe_non_default recipe ⊆ user_explicit user.
Proof.
  split.
  - intros Hf x (Hd & r & Hr & <-)%elem_of_recipe_non_default.
    apply elem_of_user_explicit. by apply Hf.
  - intros Hs r Hr Hd. apply elem_of_user_explicit, Hs.
    apply elem_of_recipe_non_default. split; [done|]. by exists r.
Qed.

Lemma strict_score_feasible user recipe sa (beta : float) :
  strict_feasible user recipe →
  ingredient_match_score user recipe sa false beta = 1%float.
Proof.
  intros Hf%strict_feasible_subseteq. unfold ingredient_match_score. simpl.
  by rewrite bool_decide_eq_true_2.
Qed.

Lemma strict_score_infeasible user recipe sa (beta : float) :
  ¬ strict_feasible user recipe →
  ingredient_match_score user recipe sa false beta = 0%float.
Proof.
  intros Hf. unfold ingredient_match_score. simpl.
  rewrite bool_decide_eq_false_2; [done|].
  by rewrite <- strict_feasible_subseteq.
Qed.

Lemma strict_feasible_dec user recipe :
  strict_feasible user recipe ∨ ¬ strict_feasible user recipe.
Proof.
  destruct (decide (recipe_non_default recipe ⊆ user_explicit user)) as [H|H];
    [left|right]; by rewrite strict_feasible_subseteq.
Qed.

Lemma strict_score_cases user recipe sa (beta : float) :
  ingredient_match_score user recipe sa false beta = 0%float ∨
  ingredient_match_score user recipe sa false beta = 1%float.
Proof.
  destruct (strict_feasible_dec user recipe) as [Hf|Hf].
  - right. by apply strict_score_feasible.
  - left. by apply strict_score_infeasible.
Qed.

(** A default ingredient anywhere in the recipe does not change the set
    that the strict gate tests. *)
Lemma recipe_non_default_insert l1 d l2 :
  normalize d ∈ DEFAULT_INGREDIENTS →
  recipe_non_default (l1 ++ d :: l2) = recipe_non_default (l1 ++ l2).
Proof.
  intros Hd. apply set_eq. intros x.
  rewrite !elem_of_recipe_non_default. split.
  - intros (Hx & r & Hr & <-). split; [done|]. exists r. split; [|done].
    apply elem_of_app in Hr as [Hr|Hr]; [apply elem_of_app; by left|].
    apply elem_of_cons in Hr as [->|Hr]; [done|apply elem_of_app; by right].
  - intros (Hx & r & Hr & <-). split; [done|]. exists r. split; [|done].
    apply elem_of_app in Hr as [Hr|Hr]; apply elem_of_app; [by left|].
    right. by apply elem_of_cons; right.
Qed.

(** The loop over the recipe, one ingredient at a time. *)
Lemma matched_sum_snoc aug sa l i :
  matched_sum aug sa (l ++ [i]) = match_step aug sa (matched_sum aug sa l) i.
Proof. unfold matched_sum. by rewrite fold_left_app. Qed.

Lemma match_step_direct aug sa (m : float) i :
  normalize i ∈ aug → match_step aug sa m i = (m + 1)%float.
Proof. intros H. unfold match_step. simpl. by rewrite bool_decide_eq_true_2. Qed.

Lemma any_substitute_true aug subs :
  any_substitute aug subs = true ↔ ∃ s, s ∈ subs ∧ normalize s ∈ aug.
Proof.
  unfold any_substitute. rewrite existsb_exists. split.
  - intros (s & Hs%list_elem_of_In & Hb%bool_decide_eq_true). eauto.
  - intros (s & Hs & Hb). exists s. split; [by apply list_elem_of_In|].
    by apply bool_decide_eq_true.
Qed.

Lemma match_step_substitute aug (m : float) i subs :
  normalize i ∉ aug →
  SUBSTITUTIONS !! normalize i = Some subs →
  (∃ s, s ∈ subs ∧ normalize s ∈ aug) →
  match_step aug true m i = (m + 0.5)%float.
Proof.
  intros Hn Hs Hex. unfold match_step. cbv zeta.
  rewrite bool_decide_eq_false_2 by done.
  rewrite bool_decide_eq_true_2 by (rewrite Hs; eauto). cbn [andb].
  rewrite (lookup_total_correct _ _ _ Hs).
  apply any_substitute_true in Hex. by rewrite Hex.
Qed.

Lemma match_step_none aug sa (m : float) i :
  normalize i ∉ aug →
  (sa = false ∨ SUBSTITUTIONS !! normalize i = None ∨
   ∃ subs, SUBSTITUTIONS !! normalize i = Some subs ∧
           ∀ s, s ∈ subs → normalize s ∉ aug) →
  match_step aug sa m i = m.
Proof.
  intros Hn Hc. unfold match_step. cbv zeta.
  rewrite bool_decide_eq_false_2 by done.
  destruct Hc as [-> | [Hs | (subs & Hs & Hno)]]; [done| |].
  - rewrite bool_decide_eq_false_2; [by rewrite andb_false_r|].
    rewrite Hs. by intros [? ?].
  - destruct sa; [|done].
    rewrite bool_decide_eq_true_2 by (rewrite Hs; eauto). cbn [andb].
    rewrite (lookup_total_correct _ _ _ Hs).
    destruct (any_substitute aug subs) eqn:E; [|done].
    apply any_substitute_true in E as (s & Hin & Hs'). by destruct (Hno s Hin).
Qed.

Lemma flexible_score_unfold user recipe sa (beta : float) :
  recipe ≠ [] →
  ingredient_match_score user recipe sa true beta =
  py_min
    (matched_sum (augmented_user_set user) sa recipe / of_len (length recipe)
     * (1 + beta * bonus_of (user_explicit user) recipe))%float
    1%float.
Proof.
  intros Hne. unfold ingredient_match_score. cbn [negb].
  destruct recipe; [done|]. reflexivity.
Qed.

(** ** The claims about the match scorer *)

Section ScorerClaims.
Local Open Scope float_scope.

(** C1.  With [user_willing_to_buy_more] false the score is exactly 1.0 when
    every non-default recipe ingredient is, once normalised, one of the
    user's normalised ingredients, and exactly 0.0 otherwise; so it is one of
    the two values, and a default ingredient added to the recipe or taken
    from it leaves the score as it was. *)
Theorem strict_mode_gate (user recipe : list string) (sa : bool) (beta : float) :
  (strict_feasible user recipe ↔
     ingredient_match_score user recipe sa false beta = 1) ∧
  (¬ strict_feasible user recipe ↔
     ingredient_match_score user recipe sa false beta = 0) ∧
  (ingredient_match_score user recipe sa false beta = 0 ∨
   ingredient_match_score user recipe sa false beta = 1) ∧
  (∀ l1 d l2, recipe = l1 ++ d :: l2 → normalize d ∈ DEFAULT_INGREDIENTS →
     ingredient_match_score user (l1 ++ l2) sa false beta =
     ingredient_match_score user recipe sa false beta).
Proof.
  assert (1 ≠ 0) as H10 by (intros H; discriminate (f_equal PrimFloat.is_zero H)).
  destruct (strict_feasible_dec user recipe) as [Hf|Hf].
  - pose proof (strict_score_feasible user recipe sa beta Hf) as E.
    rewrite E.
    split; [tauto|]. split; [split; [tauto|congruence]|]. split; [by right|].
    intros l1 d l2 -> Hd.
    unfold ingredient_match_score at 1. cbn [negb].
    rewrite <- (recipe_non_default_insert l1 d l2 Hd).
    apply strict_feasible_subseteq in Hf. by rewrite bool_decide_eq_true_2.
  - pose proof (strict_score_infeasible user recipe sa beta Hf) as E.
    rewrite E.
    split; [split; [tauto|congruence]|]. split; [tauto|]. split; [by left|].
    intros l1 d l2 -> Hd.
    unfold ingredient_match_score at 1. cbn [negb].
    rewrite <- (recipe_non_default_insert l1 d l2 Hd).
    rewrite strict_feasible_subseteq in Hf. by rewrite bool_decide_eq_false_2.
Qed.

(** C10.  With [user_willing_to_buy_more] false two calls that differ only in
    [substitutions_allowed] and in [beta] return the same value. *)
Theorem strict_mode_ignores_policy (user recipe : list string)
    (sa sa' : bool) (beta beta' : float) :
  ingredient_match_score user recipe sa false beta =
  ingredient_match_score user recipe sa' false beta'.
Proof.
  destruct (strict_feasible_dec user recipe) as [Hf|Hf].
  - by rewrite !strict_score_feasible.
  - by rewrite !strict_score_infeasible.
Qed.

(** C3.  In the loop of the flexible mode, an ingredient whose normal form is
    in the augmented set (the user's ingredients or a default one) adds 1.0 to
    [matched]; failing that, with substitutions allowed and an entry in the
    table, it adds 0.5 when one of the substitutes is in the augmented set;
    in every other case [matched] stays.  With ["almond milk"] in the pantry
    and ["milk"] in the recipe the score is 0.5. *)
Theorem flexible_match_credit (user : list string) (sa : bool) (l : list string) (i : string) :
  (normalize i ∈ user_explicit user ∨ normalize i ∈ DEFAULT_INGREDIENTS →
     matched_sum (augmented_user_set user) sa (l ++ [i]) =
     matched_sum (augmented_user_set user) sa l + 1) ∧
  (normalize i ∉ augmented_user_set user → sa = true →
     ∀ subs, SUBSTITUTIONS !! normalize i = Some subs →
       (∃ s, s ∈ subs ∧ normalize s ∈ augmented_user_set user) →
       matched_sum (augmented_user_set user) sa (l ++ [i]) =
       matched_sum (augmented_user_set user) sa l + 0.5) ∧
  (normalize i ∉ augmented_user_set user →
     (sa = false ∨ SUBSTITUTIONS !! normalize i = None ∨
      ∃ subs, SUBSTITUTIONS !! normalize i = Some subs ∧
              ∀ s, s ∈ subs → normalize s ∉ augmented_user_set user) →
     matched_sum (augmented_user_set user) sa (l ++ [i]) =
     matched_sum (augmented_user_set user) sa l) ∧
  ingredient_match_score ["almond milk"] ["milk"] true true 0.2 = 0.5.
Proof.
  split; [|split; [|split]].
  - intros Hin. rewrite matched_sum_snoc.
    apply match_step_direct. unfold augmented_user_set. by apply elem_of_union.
  - intros Hn -> subs Hs Hex. rewrite matched_sum_snoc.
    by apply match_step_substitute with subs.
  - intros Hn Hc. rewrite matched_sum_snoc. by apply match_step_none.
  - vm_compute. reflexivity.
Qed.

(** C4.  In the flexible mode, for a recipe with at least one ingredient, the
    score is [base_score * (1 + beta * bonus)] capped at 1.0, where
    [base_score] is [matched] over the number of recipe ingredients and
    [bonus] is the number of recipe ingredients whose normal form is in the
    user's explicit set over the size of that set, or 0 when the set is
    empty.  With beta 0.2, the pantry ["milk"] and the recipe
    ["milk"; "flour"] the score is 0.6. *)
Theorem flexible_score_formula (user recipe : list string) (sa : bool) (beta : float) :
  recipe ≠ [] →
  let explicit := user_explicit user in
  let base_score :=
    matched_sum (augmented_user_set user) sa recipe / of_len (length recipe) in
  let count := length (filter (λ r, normalize r ∈ explicit) recipe) in
  let bonus :=
    if decide (explicit = ∅) then 0 else of_len count / of_len (size explicit) in
  ingredient_match_score user recipe sa true beta =
    py_min (base_score * (1 + beta * bonus)) 1
  ∧ ingredient_match_score ["milk"] ["milk"; "flour"] sa true 0.2 = 0.6.
Proof.
  intros Hne explicit base_score count bonus. split.
  - rewrite flexible_score_unfold by done.
    unfold bonus_of, bonus, count, used_explicit, explicit.
    destruct (decide (user_explicit user = ∅)) as [E|E].
    + by rewrite bool_decide_eq_false_2 by (by intros H'; apply H').
    + by rewrite bool_decide_eq_true_2.
  - destruct sa; vm_compute; reflexivity.
Qed.

Lemma flexible_score_formula_witness :
  ingredient_match_score ["milk"] ["milk"; "flour"] false true 0.2 =
    py_min (matched_sum (augmented_user_set ["milk"]) false ["milk"; "flour"]
              / of_len 2 * (1 + 0.2 * (of_len 1 / of_len 1))) 1
  ∧ ingredient_match_score ["milk"] ["milk"; "flour"] false true 0.2 = 0.6.
Proof.
  exact (flexible_score_formula ["milk"] ["milk"; "flour"] false 0.2
           ltac:(discriminate)).
Defined.

End ScorerClaims.

(** ** Rounding in binary64: sign and magnitude *)

Section Binary64.
Local Open Scope Z_scope.

Abbreviation digits := Zdigits2.

Lemma digits2_pos_size (p : positive) : digits2_pos p = Pos.size p.
Proof. induction p as [p IH|p IH|]; cbn; by rewrite ?IH. Qed.

Lemma digits_log2 (m : Z) : 0 < m → digits m = Z.log2 m + 1.
Proof.
  destruct m as [|p|p]; [lia| |lia]. intros _. cbn [Zdigits2].
  rewrite digits2_pos_size. destruct p as [p|p|]; cbn; lia.
Qed.

Lemma digits_nonneg (m : Z) : 0 ≤ digits m.
Proof. destruct m; cbn; lia. Qed.

Lemma digits_pos (m : Z) : 0 < m → 0 < digits m.
Proof. intros H. rewrite digits_log2 by done. pose proof (Z.log2_nonneg m). lia. Qed.

Lemma digits_le_mono (a b : Z) : 0 ≤ a ≤ b → digits a ≤ digits b.
Proof.
  intros [Ha Hab]. destruct (Z.eq_dec a 0) as [->|Hn]; [apply digits_nonneg|].
  rewrite !digits_log2 by lia. pose proof (Z.log2_le_mono a b Hab). lia.
Qed.

Lemma digits_lt_pow2 (m k : Z) : 0 ≤ k → 0 ≤ m < 2 ^ k → digits m ≤ k.
Proof.
  intros Hk [Hm Hlt]. destruct (Z.eq_dec m 0) as [->|Hn]; [done|].
  rewrite digits_log2 by lia. apply Z.log2_lt_pow2 in Hlt; lia.
Qed.

Lemma digits_bounds (m : Z) : 0 < m → 2 ^ (digits m - 1) ≤ m < 2 ^ digits m.
Proof.
  intros H. rewrite digits_log2 by done.
  replace (Z.log2 m + 1 - 1) with (Z.log2 m) by lia.
  pose proof (Z.log2_spec m H). rewrite <- Z.add_1_r in *. lia.
Qed.

Lemma digits_div_pow2 (m n : Z) : 0 < m → 0 ≤ n < digits m →
  0 < m / 2 ^ n ∧ digits (m / 2 ^ n) = digits m - n.
Proof.
  intros Hm [Hn Hlt]. rewrite (digits_log2 m) in * by done.
  assert (0 < m / 2 ^ n) as Hpos.
  { apply Z.div_str_pos. split; [by apply Z.pow_pos_nonneg|].
    apply Z.log2_le_pow2; lia. }
  split; [done|]. rewrite digits_log2 by done.
  rewrite <- Z.shiftr_div_pow2 by done. rewrite Z.log2_shiftr by done. lia.
Qed.

Lemma digits_div_pow2_le (m n : Z) : 0 ≤ m → 0 ≤ n →
  0 ≤ m / 2 ^ n ∧ (m / 2 ^ n = 0 ∨ digits (m / 2 ^ n) = digits m - n).
Proof.
  intros Hm Hn. assert (0 < 2 ^ n) by (by apply Z.pow_pos_nonneg).
  split; [by apply Z.div_pos|].
  destruct (Z.eq_dec m 0) as [->|Hm0]; [left; apply Z.div_0_l; lia|].
  destruct (Z_lt_dec n (digits m)) as [Hlt|Hge].
  - right. apply digits_div_pow2; lia.
  - left. apply Z.div_small. split; [done|].
    eapply Z.lt_le_trans; [apply digits_bounds; lia|].
    apply Z.pow_le_mono_r; lia.
Qed.

Lemma digits_succ (m : Z) : 0 ≤ m → digits (m + 1) ≤ digits m + 1.
Proof.
  intros Hm. destruct (Z.eq_dec m 0) as [->|Hn]; [by vm_compute|].
  apply digits_lt_pow2; [pose proof (digits_nonneg m); lia|].
  pose proof (digits_bounds m ltac:(lia)) as [_ Hlt].
  rewrite Z.pow_add_r, Z.pow_1_r by (pose proof (digits_nonneg m); lia). lia.
Qed.

Lemma digits_mul_pow2 (m n : Z) : 0 < m → 0 ≤ n → digits (m * 2 ^ n) = digits m + n.
Proof.
  intros Hm Hn. assert (0 < 2 ^ n) by (by apply Z.pow_pos_nonneg).
  rewrite !digits_log2 by lia. rewrite <- Z.shiftl_mul_pow2 by done.
  rewrite Z.log2_shiftl by lia. lia.
Qed.

Lemma digits_mul (a b : Z) : 0 < a → 0 < b → digits (a * b) ≤ digits a + digits b.
Proof.
  intros Ha Hb. pose proof (digits_bounds a Ha) as [_ Ha'].
  pose proof (digits_bounds b Hb) as [_ Hb'].
  pose proof (digits_pos a Ha). pose proof (digits_pos b Hb).
  apply digits_lt_pow2; [lia|]. split; [lia|].
  rewrite Z.pow_add_r by lia. nia.
Qed.

Lemma digits_add (a b k : Z) : 0 ≤ a → 0 ≤ b → 0 ≤ k → digits a ≤ k → digits b ≤ k →
  digits (a + b) ≤ k + 1.
Proof.
  intros Ha Hb Hk Hda Hdb.
  assert (∀ x, 0 ≤ x → digits x ≤ k → x < 2 ^ k) as Hlt.
  { intros x Hx Hdx. destruct (Z.eq_dec x 0) as [->|Hn]; [by apply Z.pow_pos_nonneg|].
    eapply Z.lt_le_trans; [apply digits_bounds; lia|]. apply Z.pow_le_mono_r; lia. }
  apply digits_lt_pow2; [lia|]. split; [lia|].
  rewrite Z.pow_add_r, Z.pow_1_r by lia.
  pose proof (Hlt a Ha Hda). pose proof (Hlt b Hb Hdb). lia.
Qed.

(** *** Rounding to binary64 *)

Abbreviation fexp64 := (fexp prec emax).

Lemma fexp64_eq (x : Z) : fexp64 x = Z.max (x - 53) (-1074).
Proof. reflexivity. Qed.

Lemma shr_1_m (r : shr_record) : 0 ≤ shr_m r → shr_m (shr_1 r) = shr_m r / 2.
Proof.
  destruct r as [m rb sb]. cbn [shr_m]. intros Hm.
  rewrite <- Z.div2_div. by destruct m as [|[p|p|]|p].
Qed.

Lemma iter_pos_shr_m (p : positive) (r : shr_record) :
  0 ≤ shr_m r → shr_m (SpecFloat.iter_pos shr_1 p r) = shr_m r / 2 ^ Zpos p.
Proof.
  revert r. induction p as [p IH|p IH|]; intros r Hr; cbn [SpecFloat.iter_pos].
  - assert (0 ≤ shr_m (shr_1 r)) as H1
      by (rewrite shr_1_m by done; apply Z.div_pos; lia).
    assert (0 < 2 ^ Zpos p) as Hp by (by apply Z.pow_pos_nonneg).
    assert (0 ≤ shr_m (SpecFloat.iter_pos shr_1 p (shr_1 r))) as H2
      by (rewrite IH by done; by apply Z.div_pos).
    rewrite IH, IH, shr_1_m by done.
    rewrite !Z.div_div by lia. f_equal.
    replace (Zpos p~1) with (1 + Zpos p + Zpos p) by lia.
    rewrite !Z.pow_add_r, Z.pow_1_r by lia. lia.
  - assert (0 < 2 ^ Zpos p) as Hp by (by apply Z.pow_pos_nonneg).
    assert (0 ≤ shr_m (SpecFloat.iter_pos shr_1 p r)) as H2
      by (rewrite IH by done; by apply Z.div_pos).
    rewrite IH, IH by done.
    rewrite !Z.div_div by lia. f_equal.
    replace (Zpos p~0) with (Zpos p + Zpos p) by lia.
    rewrite !Z.pow_add_r by lia. lia.
  - rewrite shr_1_m by done. by rewrite Z.pow_1_r.
Qed.

Lemma shr_record_of_loc_m (m : Z) (l : location) : shr_m (shr_record_of_loc m l) = m.
Proof. by destruct l as [|[]]. Qed.

(** The first component of [shr_fexp]: the mantissa is divided by a power
    of two, and the exponent grows by as much. *)
Lemma shr_fexp_m (m e : Z) (l : location) :
  0 ≤ m →
  let n := Z.max 0 (fexp64 (digits m + e) - e) in
  shr_m (shr_fexp prec emax m e l).1 = m / 2 ^ n ∧
  (shr_fexp prec emax m e l).2 = e + n.
Proof.
  intros Hm n. unfold shr_fexp, shr. subst n.
  destruct (fexp64 (digits m + e) - e) as [|p|p] eqn:E; cbn [fst snd].
  - rewrite shr_record_of_loc_m. change (Z.max 0 0) with 0.
    by rewrite Z.pow_0_r, Z.div_1_r, Z.add_0_r.
  - rewrite iter_pos_shr_m by (by rewrite shr_record_of_loc_m).
    rewrite shr_record_of_loc_m. by rewrite Z.max_r by lia.
  - rewrite shr_record_of_loc_m. rewrite Z.max_l by lia.
    by rewrite Z.pow_0_r, Z.div_1_r, Z.add_0_r.
Qed.

Lemma round_nearest_even_bounds (m : Z) (l : location) :
  m ≤ round_nearest_even m l ≤ m + 1.
Proof. destruct l as [|[]]; cbn; try lia. destruct (Z.even m); lia. Qed.

(** What [binary_round_aux] does to a non-negative mantissa, step by step. *)
Lemma binary_round_aux_shape (m e : Z) (l : location) :
  0 ≤ m →
  ∃ m2 m3 e3,
    let n1 := Z.max 0 (fexp64 (digits m + e) - e) in
    let n2 := Z.max 0 (fexp64 (digits m2 + (e + n1)) - (e + n1)) in
    m / 2 ^ n1 ≤ m2 ≤ m / 2 ^ n1 + 1 ∧
    m3 = m2 / 2 ^ n2 ∧ e3 = e + n1 + n2 ∧
    binary_round_aux prec emax false m e l =
      match m3 with
      | Z0 => S754_zero false
      | Zpos p => if e3 <=? 971 then S754_finite false p e3 else S754_infinity false
      | Zneg _ => S754_nan
      end.
Proof.
  intros Hm. unfold binary_round_aux.
  destruct (shr_fexp_m m e l Hm) as [H1 H2].
  destruct (shr_fexp prec emax m e l) as [r1 e1]. cbn [fst snd] in H1, H2.
  set (m2 := round_nearest_even (shr_m r1) (loc_of_shr_record r1)).
  assert (0 ≤ m / 2 ^ Z.max 0 (fexp64 (digits m + e) - e)) as Hd
    by (apply Z.div_pos; [done|apply Z.pow_pos_nonneg; lia]).
  pose proof (round_nearest_even_bounds (shr_m r1) (loc_of_shr_record r1)) as Hr.
  fold m2 in Hr. rewrite H1 in Hr.
  assert (0 ≤ m2) as Hm2 by lia.
  destruct (shr_fexp_m m2 e1 loc_Exact Hm2) as [H3 H4].
  destruct (shr_fexp prec emax m2 e1 loc_Exact) as [r2 e2]. cbn [fst snd] in H3, H4.
  exists m2, (shr_m r2), e2. cbv zeta. subst e1.
  split; [done|]. split; [done|]. split; [done|]. reflexivity.
Qed.

Lemma digits_div (a b : Z) : 0 ≤ a → 0 < b →
  0 ≤ a / b ∧ digits (a / b) ≤ Z.max 0 (digits a - digits b + 1).
Proof.
  intros Ha Hb. split; [by apply Z.div_pos|].
  pose proof (digits_bounds b Hb) as [Hlo _]. pose proof (digits_pos b Hb) as Hdb.
  assert (0 < 2 ^ (digits b - 1)) as Hp by (apply Z.pow_pos_nonneg; lia).
  assert (a / b ≤ a / 2 ^ (digits b - 1)) as Hle by (by apply Z.div_le_compat_l).
  destruct (digits_div_pow2_le a (digits b - 1) Ha ltac:(lia)) as [H0 [Hz|Hd]].
  - assert (a / b = 0) as -> by (pose proof (Z.div_pos a b Ha Hb); lia). cbn. lia.
  - etransitivity; [apply digits_le_mono; split; [by apply Z.div_pos|exact Hle]|]. lia.
Qed.

Lemma mag_le_pos_mag lo hi x : pos_mag lo hi x → mag_le hi x.
Proof. destruct x as [| | |[]]; cbn; lia. Qed.

Lemma binary_round_aux_nn (m e : Z) (l : location) :
  0 ≤ m → nn (binary_round_aux prec emax false m e l).
Proof.
  intros Hm. destruct (binary_round_aux_shape m e l Hm) as (m2 & m3 & e3 & H).
  cbv zeta in H. destruct H as (Hm2 & -> & -> & ->).
  set (n2 := Z.max 0 _).
  assert (0 ≤ m2 / 2 ^ n2) as H3.
  { apply Z.div_pos; [|apply Z.pow_pos_nonneg; lia].
    assert (0 ≤ m / 2 ^ Z.max 0 (fexp64 (digits m + e) - e))
      by (apply Z.div_pos; [done|apply Z.pow_pos_nonneg; lia]). lia. }
  destruct (m2 / 2 ^ n2) as [|p|p]; [done| |lia].
  by destruct (_ <=? 971).
Qed.

Lemma binary_round_aux_upper (m e : Z) (l : location) (K : Z) :
  0 ≤ m → digits m + e ≤ K → -1074 ≤ K ≤ 971 →
  mag_le (K + 1) (binary_round_aux prec emax false m e l).
Proof.
  intros Hm HK HKr. destruct (binary_round_aux_shape m e l Hm) as (m2 & m3 & e3 & H).
  cbv zeta in H. destruct H as (Hm2 & -> & -> & ->).
  rewrite !fexp64_eq. rewrite fexp64_eq in Hm2.
  set (n1 := Z.max 0 (Z.max (digits m + e - 53) (-1074) - e)) in *.
  set (n2 := Z.max 0 _).
  pose proof (digits_nonneg m) as Hdm.
  destruct (digits_div_pow2_le m n1 Hm ltac:(lia)) as [H1 H1'].
  assert (0 ≤ m2) as Hm2' by lia.
  assert (digits m2 + (e + n1) ≤ K + 1) as HA.
  { destruct H1' as [Hz|Hd].
    - assert (digits m2 ≤ 1).
      { change 1 with (digits 1). apply digits_le_mono. lia. }
      lia.
    - assert (digits m2 ≤ digits (m / 2 ^ n1) + 1).
      { etransitivity; [apply (digits_le_mono m2 (m / 2 ^ n1 + 1)); lia|].
        by apply digits_succ. }
      lia. }
  destruct (digits_div_pow2_le m2 n2 Hm2' ltac:(lia)) as [H3 [Hz|Hd]].
  - by rewrite Hz.
  - destruct (m2 / 2 ^ n2) as [|p|p] eqn:E; [done| |lia].
    assert (0 < digits (Zpos p)) by (by apply digits_pos).
    rewrite (proj2 (Z.leb_le _ _)) by lia. cbn [mag_le]. lia.
Qed.

Lemma binary_round_aux_lower (m e : Z) (l : location) (K : Z) :
  0 < m → -1021 ≤ digits m + e → digits m + e ≤ K → K ≤ 971 →
  pos_mag (digits m + e) (K + 1) (binary_round_aux prec emax false m e l).
Proof.
  intros Hm Hlo HK HKr.
  destruct (binary_round_aux_shape m e l ltac:(lia)) as (m2 & m3 & e3 & H).
  cbv zeta in H. destruct H as (Hm2 & -> & -> & ->).
  rewrite !fexp64_eq. rewrite fexp64_eq in Hm2.
  set (n1 := Z.max 0 (Z.max (digits m + e - 53) (-1074) - e)) in *.
  set (n2 := Z.max 0 _).
  pose proof (digits_pos m Hm) as Hdm.
  destruct (digits_div_pow2 m n1 Hm ltac:(lia)) as [H1 H1'].
  assert (0 < m2) as Hm2' by lia.
  assert (digits (m / 2 ^ n1) ≤ digits m2 ≤ digits (m / 2 ^ n1) + 1) as [HB1 HB2].
  { split; [apply digits_le_mono; lia|].
    etransitivity; [apply (digits_le_mono m2 (m / 2 ^ n1 + 1)); lia|].
    apply digits_succ. lia. }
  assert (n2 = Z.max 0 (digits m2 - 53)) as Hn2 by (subst n2; lia).
  pose proof (digits_pos m2 Hm2') as Hdm2.
  destruct (digits_div_pow2 m2 n2 Hm2' ltac:(lia)) as [H3 H3'].
  destruct (m2 / 2 ^ n2) as [|p|p] eqn:E; [lia| |lia].
  assert (0 < digits (Zpos p)) by (by apply digits_pos).
  rewrite (proj2 (Z.leb_le _ _)) by lia. cbn [pos_mag]. lia.
Qed.

Lemma Pos_iter_xO (m d : positive) : Zpos (Pos.iter xO m d) = Zpos m * 2 ^ Zpos d.
Proof.
  induction d as [|d IH] using Pos.peano_ind.
  - cbn. lia.
  - rewrite Pos.iter_succ, Pos2Z.inj_succ, Z.pow_succ_r by lia.
    rewrite Pos2Z.inj_xO, IH. lia.
Qed.

Lemma shl_align_spec (mx : positive) (ex ex' : Z) :
  (shl_align mx ex ex').2 = Z.min ex ex' ∧
  Zpos (shl_align mx ex ex').1 = Zpos mx * 2 ^ (ex - Z.min ex ex').
Proof.
  unfold shl_align. destruct (ex' - ex) as [|d|d] eqn:E; cbn [fst snd].
  - rewrite Z.min_l by lia. by rewrite Z.sub_diag, Z.mul_1_r.
  - rewrite Z.min_l by lia. by rewrite Z.sub_diag, Z.mul_1_r.
  - rewrite Z.min_r by lia. split; [done|].
    rewrite Pos_iter_xO. f_equal. f_equal. lia.
Qed.

Lemma shl_align_digits (mx : positive) (ex ex' : Z) :
  digits (Zpos (shl_align mx ex ex').1) + (shl_align mx ex ex').2
  = digits (Zpos mx) + ex.
Proof.
  destruct (shl_align_spec mx ex ex') as [-> ->].
  rewrite digits_mul_pow2 by lia. lia.
Qed.

Lemma binary_round_nn (mx : positive) (ex : Z) :
  nn (binary_round prec emax false mx ex).
Proof.
  unfold binary_round. destruct (shl_align mx ex _) as [mz ez].
  by apply binary_round_aux_nn.
Qed.

Lemma binary_round_mag (mx : positive) (ex K : Z) :
  -1021 ≤ digits (Zpos mx) + ex → digits (Zpos mx) + ex ≤ K → K ≤ 971 →
  pos_mag (digits (Zpos mx) + ex) (K + 1) (binary_round prec emax false mx ex).
Proof.
  intros Hlo HK HKr. unfold binary_round.
  pose proof (shl_align_digits mx ex (fexp64 (Zpos (digits2_pos mx) + ex))) as Hd.
  destruct (shl_align mx ex _) as [mz ez]. cbn [fst snd] in Hd.
  rewrite <- Hd. apply binary_round_aux_lower; lia.
Qed.

(** *** The four operations on floats that are not negative *)

Lemma SFadd_nn (x y : spec_float) (lo hi : Z) :
  nn x → pos_mag lo hi y → nn (SFadd prec emax x y).
Proof.
  destruct x as [sx|[]| |[] mx ex]; try done;
    destruct y as [| | |[] my ey]; try done.
  intros _ _. cbn [SFadd cond_Zopp].
  unfold binary_normalize.
  destruct (Zpos _ + Zpos _) as [|p|p] eqn:E; [done| |lia].
  apply binary_round_nn.
Qed.

(** [1.0 + t] for a [t] that is zero or below [2 ^ K]. *)
Lemma SFadd_one_mag (t : spec_float) (K : Z) :
  mag_le K t → 1 ≤ K → K ≤ 969 →
  pos_mag 1 (K + 2) (SFadd prec emax SF_one t).
Proof.
  destruct t as [st| | |[] my ey]; try done.
  - intros _ HK1 HK2. cbn. lia.
  - cbn [mag_le]. intros Hm HK1 HK2. unfold SF_one. cbn [SFadd cond_Zopp].
    set (ez := Z.min (-52) ey).
    destruct (shl_align_spec 4503599627370496 (-52) ez) as [_ H1].
    destruct (shl_align_spec my ey ez) as [_ H2].
    rewrite (Z.min_r (-52) ez) in H1 by lia. rewrite (Z.min_r ey ez) in H2 by lia.
    set (a := Zpos (shl_align 4503599627370496 (-52) ez).1) in *.
    set (b := Zpos (shl_align my ey ez).1) in *.
    assert (digits a + ez = 1) as Ha.
    { rewrite H1, digits_mul_pow2 by lia. change (digits 4503599627370496) with 53. lia. }
    assert (digits b + ez = digits (Zpos my) + ey) as Hb.
    { rewrite H2, digits_mul_pow2 by lia. lia. }
    assert (0 < a) by (subst a; lia). assert (0 < b) by (subst b; lia).
    assert (digits a ≤ digits (a + b)) by (apply digits_le_mono; lia).
    assert (digits (a + b) ≤ K - ez + 1).
    { pose proof (digits_pos a ltac:(lia)).
      apply digits_add; lia. }
    unfold binary_normalize. destruct (a + b) as [|p|p] eqn:E; [lia| |lia].
    pose proof (binary_round_mag p ez (K + 1) ltac:(lia) ltac:(lia) ltac:(lia)) as Hr.
    destruct (binary_round prec emax false p ez) as [| | |[] m e]; try done.
    cbn [pos_mag] in *. lia.
Qed.

Lemma SFmul_nn (x y : spec_float) (lo hi : Z) :
  nn x → pos_mag lo hi y → nn (SFmul prec emax x y).
Proof.
  destruct x as [sx|[]| |[] mx ex]; try done;
    destruct y as [| | |[] my ey]; try done.
  intros _ _. cbn [SFmul xorb]. by apply binary_round_aux_nn.
Qed.

Lemma SFmul_mag (x y : spec_float) (Kx Ky : Z) :
  mag_le Kx x → mag_le Ky y → -1074 ≤ Kx + Ky ≤ 971 →
  mag_le (Kx + Ky + 1) (SFmul prec emax x y).
Proof.
  destruct x as [sx| | |[] mx ex]; try done;
    destruct y as [sy| | |[] my ey]; try done.
  cbn [mag_le SFmul xorb]. intros Hx Hy HK.
  apply binary_round_aux_upper; [lia| |lia].
  rewrite Pos2Z.inj_mul.
  pose proof (digits_mul (Zpos mx) (Zpos my) ltac:(lia) ltac:(lia)). lia.
Qed.

Lemma SFdiv_core_nonneg (m1 m2 : positive) (e1 e2 : Z) :
  let '(q, e', _) := SFdiv_core_binary prec emax (Zpos m1) e1 (Zpos m2) e2 in
  0 ≤ q ∧ digits q + e' ≤ digits (Zpos m1) + e1 - (digits (Zpos m2) + e2) + 1
        ∨ 0 ≤ q ∧ q = 0 ∧
          e' ≤ Z.max (digits (Zpos m1) + e1 - (digits (Zpos m2) + e2) - 53) (-1074).
Proof.
  unfold SFdiv_core_binary.
  set (d1 := digits (Zpos m1)). set (d2 := digits (Zpos m2)).
  set (e' := Z.min (fexp prec emax (d1 + e1 - (d2 + e2))) (e1 - e2)).
  set (s := e1 - e2 - e').
  assert (0 ≤ s) as Hs by (subst s e'; lia).
  set (m' := match s with Zpos _ => Z.shiftl (Zpos m1) s | Z0 => Zpos m1 | Zneg _ => 0 end).
  assert (m' = Zpos m1 * 2 ^ s) as Hm'.
  { subst m'. destruct s as [|p|p] eqn:E; [lia| |lia].
    by rewrite Z.shiftl_mul_pow2. }
  assert (0 < m') as Hpos by (rewrite Hm'; apply Z.mul_pos_pos; [lia|apply Z.pow_pos_nonneg; lia]).
  assert (digits m' = d1 + s) as Hdm' by (rewrite Hm'; apply digits_mul_pow2; lia).
  pose proof (Z_div_mod m' (Zpos m2) ltac:(lia)) as Hdiv.
  pose proof (digits_div m' (Zpos m2) ltac:(lia) ltac:(lia)) as [Hq Hdq].
  unfold Z.div in Hq, Hdq. destruct (Z.div_eucl m' (Zpos m2)) as [q r].
  cbn [fst] in Hq, Hdq. fold d2 in Hdq. rewrite Hdm' in Hdq.
  destruct (Z.eq_dec q 0) as [->|Hq0].
  - right. split; [done|]. split; [done|]. subst e'. rewrite fexp64_eq. lia.
  - left. split; [done|]. pose proof (digits_pos q ltac:(lia)). lia.
Qed.

Lemma SFdiv_nn (x y : spec_float) (lo hi : Z) :
  nn x → pos_mag lo hi y → nn (SFdiv prec emax x y).
Proof.
  destruct x as [sx|[]| |[] mx ex]; try done;
    destruct y as [| | |[] my ey]; try done.
  intros _ _. cbn [SFdiv xorb].
  pose proof (SFdiv_core_nonneg mx my ex ey) as H.
  destruct (SFdiv_core_binary prec emax (Zpos mx) ex (Zpos my) ey) as [[q e'] l].
  apply binary_round_aux_nn. destruct H as [[H _]|[H _]]; done.
Qed.

Lemma SFdiv_mag (x y : spec_float) (K hi : Z) :
  mag_le K x → pos_mag 1 hi y → -1074 ≤ K ≤ 971 → hi ≤ 1000 →
  mag_le (K + 1) (SFdiv prec emax x y).
Proof.
  destruct x as [sx| | |[] mx ex]; try done;
    destruct y as [sy| | |[] my ey]; try done.
  cbn [mag_le pos_mag SFdiv xorb]. intros Hx Hy HK Hhi.
  pose proof (SFdiv_core_nonneg mx my ex ey) as H.
  destruct (SFdiv_core_binary prec emax (Zpos mx) ex (Zpos my) ey) as [[q e'] l].
  apply binary_round_aux_upper; [|  |lia].
  - destruct H as [[H _]|[H _]]; done.
  - destruct H as [[_ H]|(_ & -> & H)]; [lia|].
    change (digits 0) with 0. lia.
Qed.
End Binary64.

(** ** The score lies in the unit interval *)

Section Score64.
Local Open Scope Z_scope.

Abbreviation digits := Zdigits2.

Lemma size_list_to_set_le (l : list string) :
  (size (list_to_set (C:=gset string) l) ≤ length l)%nat.
Proof.
  induction l as [|x l IH]; [by rewrite list_to_set_nil, size_empty|].
  rewrite list_to_set_cons, size_union_alt, size_singleton. cbn [length].
  pose proof (subseteq_size (list_to_set (C:=gset string) l ∖ {[x]}) (list_to_set l)
                ltac:(set_solver)).
  lia.
Qed.

Lemma Prim2SF_one : Prim2SF 1 = SF_one.
Proof. reflexivity. Qed.

Lemma of_len_spec (k : nat) :
  Z.of_nat k < 2 ^ 63 →
  Prim2SF (of_len k) = binary_normalize prec emax (Z.of_nat k) 0 false.
Proof.
  intros Hk. unfold of_len. rewrite of_uint63_spec. f_equal.
  rewrite Uint63.of_Z_spec. apply Z.mod_small. split; [lia|exact Hk].
Qed.

Lemma of_len_mag (k : nat) :
  Z.of_nat k < 2 ^ 63 → mag_le 64 (Prim2SF (of_len k)).
Proof.
  intros Hk. rewrite of_len_spec by done. unfold binary_normalize.
  destruct (Z.of_nat k) as [|p|p] eqn:E; [done| |lia].
  assert (digits (Zpos p) ≤ 63) as Hd by (apply digits_lt_pow2; lia).
  pose proof (digits_pos (Zpos p) ltac:(lia)) as Hd'.
  apply mag_le_pos_mag with (lo := digits (Zpos p) + 0).
  apply (binary_round_mag p 0 63); lia.
Qed.

Lemma of_len_pos (k : nat) :
  k ≠ 0%nat → Z.of_nat k < 2 ^ 63 → pos_mag 1 64 (Prim2SF (of_len k)).
Proof.
  intros Hk0 Hk. rewrite of_len_spec by done. unfold binary_normalize.
  destruct (Z.of_nat k) as [|p|p] eqn:E; [lia| |lia].
  assert (digits (Zpos p) ≤ 63) as Hd by (apply digits_lt_pow2; lia).
  pose proof (digits_pos (Zpos p) ltac:(lia)) as Hd'.
  pose proof (binary_round_mag p 0 63 ltac:(lia) ltac:(lia) ltac:(lia)) as H.
  destruct (binary_round prec emax false p 0) as [| | |[] m e]; try done.
  cbn [pos_mag] in *. lia.
Qed.

Lemma match_step_nn aug sa (m : float) i :
  nn (Prim2SF m) → nn (Prim2SF (match_step aug sa m i)).
Proof.
  intros Hm. unfold match_step. cbv zeta.
  repeat match goal with |- context [if ?b then _ else _] => destruct b end;
    try done; rewrite FloatAxioms.add_spec.
  - by apply (SFadd_nn _ _ 1 1).
  - by apply (SFadd_nn _ _ 0 0).
Qed.

Lemma matched_sum_nn aug sa (l : list string) :
  nn (Prim2SF (matched_sum aug sa l)).
Proof.
  unfold matched_sum. generalize (I : nn (Prim2SF 0%float)).
  generalize 0%float.
  induction l as [|i l IH]; intros m Hm; [done|].
  cbn [fold_left]. by apply IH, match_step_nn.
Qed.

Lemma bonus_of_mag (explicit : gset string) (recipe : list string) :
  Z.of_nat (size explicit) < 2 ^ 63 → Z.of_nat (length recipe) < 2 ^ 63 →
  mag_le 65 (Prim2SF (bonus_of explicit recipe)).
Proof.
  intros Hs Hr. unfold bonus_of. case_bool_decide as Hne; [|done].
  rewrite FloatAxioms.div_spec.
  apply (SFdiv_mag _ _ 64 64); [|  |lia|lia].
  - apply of_len_mag. unfold used_explicit.
    pose proof (length_filter (λ ingr, normalize ingr ∈ explicit) recipe). lia.
  - apply of_len_pos; [|done]. intros Hz. apply size_empty_inv in Hz.
    apply Hne. by apply leibniz_equiv.
Qed.

Lemma bonus_factor_pos (explicit : gset string) (recipe : list string) :
  Z.of_nat (size explicit) < 2 ^ 63 → Z.of_nat (length recipe) < 2 ^ 63 →
  pos_mag 1 66
    (Prim2SF (1 + 0.2 * bonus_of explicit recipe)%float).
Proof.
  intros Hs Hr.
  rewrite FloatAxioms.add_spec, FloatAxioms.mul_spec. change (Prim2SF 1%float) with SF_one.
  apply (SFadd_one_mag _ 64); [|lia|lia].
  apply (SFmul_mag (Prim2SF 0.2) _ (-2) 65); [by vm_compute| |lia].
  by apply bonus_of_mag.
Qed.

Lemma SFcompare_one_antisym (x : spec_float) :
  nn x → SFltb SF_one x = false → SFleb x SF_one = true.
Proof.
  destruct x as [s|[]| |[] m e]; try done.
  unfold SFltb, SFleb, SF_one. cbn [SFcompare].
  rewrite (Z.compare_antisym (-52) e).
  assert (Pos.compare_cont Eq m 4503599627370496
          = CompOpp (Pos.compare_cont Eq 4503599627370496 m)) as ->
    by (symmetry; apply (Pos.compare_cont_antisym 4503599627370496 m Eq)).
  destruct (-52 ?= e); cbn; try done.
  by destruct (Pos.compare_cont Eq 4503599627370496 m).
Qed.

Lemma py_min_one_bounds (x : float) :
  nn (Prim2SF x) →
  PrimFloat.leb 0 (py_min x 1%float) = true ∧
  PrimFloat.leb (py_min x 1%float) 1 = true.
Proof.
  intros Hx. unfold py_min.
  destruct (PrimFloat.ltb 1 x) eqn:E; [done|].
  rewrite FloatAxioms.ltb_spec, Prim2SF_one in E. rewrite !FloatAxioms.leb_spec, Prim2SF_one.
  split; [|by apply SFcompare_one_antisym].
  change (Prim2SF 0) with (S754_zero false).
  by destruct (Prim2SF x) as [s|[]| |[] m e].
Qed.

(** C2.  For every list of user ingredients and of recipe ingredients that
    CPython can hold (a length below 2^63), both flags and beta 0.2, the
    score [s] satisfies [0.0 <= s] and [s <= 1.0]. *)
Theorem score_within_unit_interval (user recipe : list string) (sa wb : bool) :
  Z.of_nat (length user) < 2 ^ 63 → Z.of_nat (length recipe) < 2 ^ 63 →
  PrimFloat.leb 0 (ingredient_match_score user recipe sa wb 0.2%float) = true ∧
  PrimFloat.leb (ingredient_match_score user recipe sa wb 0.2%float) 1 = true.
Proof.
  intros Hu Hr. destruct wb.
  - destruct recipe as [|r recipe]; [done|].
    rewrite flexible_score_unfold by done.
    apply py_min_one_bounds.
    rewrite FloatAxioms.mul_spec, FloatAxioms.div_spec.
    assert (Z.of_nat (size (user_explicit user)) < 2 ^ 63) as Hs.
    { unfold user_explicit.
      pose proof (size_list_to_set_le (normalize <$> user)) as H.
      rewrite length_fmap in H. lia. }
    apply (SFmul_nn _ _ 1 66); [|by apply bonus_factor_pos].
    apply (SFdiv_nn _ _ 1 64); [apply matched_sum_nn|].
    by apply of_len_pos.
  - destruct (strict_score_cases user recipe sa 0.2%float) as [E|E]; by rewrite E.
Qed.

Lemma score_within_unit_interval_witness :
  Z.of_nat (length ["milk"]) < 2 ^ 63 ∧
  Z.of_nat (length ["milk"; "flour"]) < 2 ^ 63 ∧
  PrimFloat.leb 0 (ingredient_match_score ["milk"] ["milk"; "flour"] true true 0.2%float)
    = true ∧
  PrimFloat.leb (ingredient_match_score ["milk"] ["milk"; "flour"] true true 0.2%float) 1
    = true.
Proof.
  split; [reflexivity|]. split; [reflexivity|].
  apply (score_within_unit_interval ["milk"] ["milk"; "flour"] true true); reflexivity.
Defined.
End Score64.

(** ** The order test *)


(** ** Runs of the pipeline *)

Section Runs.
Variable cuisine_clf : list string → option (list string).
Variable meal_clf : list string → option (list string).
Variable infer : list string → list float → option (list (list float)).
Variable classes_ : list Z.
Variable list_of_set : gset string → list string.
Variable sort_values : list candidate → list candidate.

Abbreviation answered' := (answered cuisine_clf meal_clf infer).
Abbreviation corpus_filter' := (corpus_filter cuisine_clf meal_clf).
Abbreviation rank' := (rank infer classes_ sort_values).
Abbreviation recommend' :=
  (recommend cuisine_clf meal_clf infer classes_ list_of_set sort_values).
Abbreviation get_recommendations' :=
  (get_recommendations cuisine_clf meal_clf infer classes_ list_of_set sort_values).

Lemma emits_ret {X : Type} (P Q : call → Prop) (x : X) : emits P Q (mret x).
Proof. intros log. exists []. cbn. by rewrite app_nil_r. Qed.

Lemma emits_raise {X : Type} (P Q : call → Prop) : emits P Q (raise (X:=X)).
Proof.
  intros log. exists []. cbn. rewrite app_nil_r.
  split; [done|]. split; [done|]. by intros [x Hx].
Qed.

Lemma emits_invoke {X : Type} (P Q : call → Prop) c (answer : option X) :
  P c → (is_Some answer → Q c) → emits P Q (invoke c answer).
Proof.
  intros HP HQ log. exists [c]. cbn. split; [done|]. split; [by constructor|].
  intros [x Hx]. destruct answer; [|done]. constructor; [|done]. by apply HQ.
Qed.

Lemma emits_bind {X Y : Type} (P Q : call → Prop) (m : M X) (k : X → M Y) :
  emits P Q m → (∀ x, emits P Q (k x)) → emits P Q (m ≫= k).
Proof.
  intros Hm Hk log. destruct (Hm log) as (new1 & E1 & HP1 & HQ1).
  unfold mbind, M_bind. destruct (m log) as [[x|] log1] eqn:Em; cbn in *.
  - subst log1. destruct (Hk x (log ++ new1)) as (new2 & E2 & HP2 & HQ2).
    exists (new1 ++ new2). rewrite E2, app_assoc.
    split; [done|]. split; [by apply Forall_app|].
    intros Hr. apply Forall_app. split; [apply HQ1; eauto|exact (HQ2 Hr)].
  - exists new1. split; [done|]. split; [done|]. by intros [y Hy].
Qed.

Lemma emits_predict_loop (P Q : call → Prop) mk clf bs out :
  (∀ b, P (mk b)) → (∀ b, is_Some (clf b) → Q (mk b)) →
  emits P Q (predict_loop mk clf bs out).
Proof.
  intros HP HQ. revert out. induction bs as [|b bs IH]; intros out; cbn.
  - apply emits_ret.
  - apply emits_bind; [by apply emits_invoke; auto|]. intros x. apply IH.
Qed.

(** A prediction loop whose classifier answers every batch. *)
Lemma predict_loop_answers (mk : list string → call) clf bs answers out log :
  mapM clf bs = Some answers →
  predict_loop mk clf bs out log =
    (Returned (out ++ concat answers), log ++ (mk <$> bs)).
Proof.
  revert answers out log. induction bs as [|b bs IH]; intros answers out log Hm.
  - cbn in Hm. injection Hm as <-. cbn. by rewrite !app_nil_r.
  - cbn in Hm. destruct (clf b) as [a|] eqn:Ea; [|done]. cbn in Hm.
    destruct (mapM clf bs) as [rest|] eqn:Er; [|done]. cbn in Hm.
    injection Hm as <-. cbn [predict_loop]. unfold mbind, M_bind, invoke.
    rewrite Ea. rewrite (IH rest) by done.
    cbn. by rewrite <- !app_assoc.
Qed.

Lemma emits_corpus_filter db prefs :
  emits (λ c, is_infer c = false) answered' (corpus_filter' db prefs).
Proof.
  unfold corpus_filter.
  apply emits_bind; [by apply emits_predict_loop|]. intros cs.
  destruct (negb _); [apply emits_raise|].
  apply emits_bind; [by apply emits_predict_loop|]. intros ms.
  destruct (assign_labels _ _ _); [apply emits_ret|apply emits_raise].
Qed.

Lemma emits_rank prefs cands :
  emits (λ _, True) answered' (rank' prefs cands).
Proof.
  unfold rank. apply emits_bind; [by apply emits_invoke|]. intros predictions.
  destruct (assign_model_scores _ _ _ _); [|apply emits_raise].
  destruct (sort_values _); apply emits_ret.
Qed.

Lemma emits_weaken {X : Type} (P P' Q : call → Prop) (m : M X) :
  (∀ c, P c → P' c) → emits P Q m → emits P' Q m.
Proof.
  intros HPP Hm log. destruct (Hm log) as (new & E & HP & HQ).
  exists new. split; [done|]. split; [|done]. by eapply Forall_impl.
Qed.

Lemma emits_recommend db prefs :
  emits (λ _, True) answered' (recommend' db prefs).
Proof.
  unfold recommend. apply emits_bind.
  { eapply emits_weaken; [|apply emits_corpus_filter]. done. }
  intros matching. destruct (Nat.eqb _ 0); [apply emits_ret|].
  destruct (negb _); [|apply emits_rank].
  destruct (Nat.eqb _ 0); [apply emits_ret|apply emits_rank].
Qed.

(** [prefs["ingredients"]] is overwritten before it is read: whatever the
    preference source supplied, the scorer is called with the sample list. *)
Lemma recommend_scores_against_sample (prefs0 : preferences) :
  user_ingredients_of (set_ingredients prefs0 SAMPLE_INGREDIENTS) = SAMPLE_INGREDIENTS.
Proof. reflexivity. Qed.

(** How [recommend] goes on after the filter. *)
Lemma recommend_unfold db prefs log :
  recommend' db prefs log =
  let prefs' := set_ingredients prefs SAMPLE_INGREDIENTS in
  match corpus_filter' db prefs' log with
  | (Returned matching, log1) =>
      if Nat.eqb (length matching) 0 then (Returned empty_result, log1)
      else
        let scored := score_rows list_of_set prefs' matching in
        if negb (flag (use_grocery prefs')) then
          if Nat.eqb (length (positive_scores scored)) 0
          then (Returned empty_result, log1)
          else rank' prefs' (positive_scores scored) log1
        else rank' prefs' scored log1
  | (Raised, log1) => (Raised, log1)
  end.
Proof.
  unfold recommend, mbind, M_bind. cbv zeta.
  destruct (corpus_filter' _ _ log) as [[matching|] log1]; [|done].
  destruct (Nat.eqb _ 0); [done|].
  destruct (negb _); [|done]. by destruct (Nat.eqb _ 0).
Qed.

Lemma selected_meal_type_lower (prefs : preferences) :
  py_lower (selected_meal_type prefs) = selected_meal_type prefs.
Proof.
  unfold selected_meal_type.
  destruct (USER_TO_CATEGORY !! meal_type prefs) as [v|] eqn:E; [|done].
  apply elem_of_list_to_map_2 in E. cbn.
  repeat (apply elem_of_cons in E as [E|E]; [by injection E as _ ->|]).
  by apply elem_of_nil in E.
Qed.

Lemma label_match_spec (prefs : preferences) (r : labelled) :
  label_match prefs r ↔
  py_lower (predicted_cuisine r) = py_lower (cuisine prefs) ∧
  py_lower (predicted_meal_type r) = py_lower (selected_meal_type prefs).
Proof.
  unfold label_match, selected_cuisine. rewrite selected_meal_type_lower.
  rewrite andb_True, !bool_decide_spec. done.
Qed.

Lemma assign_labels_Some (rows : list row) cs ms :
  length cs = length rows → length ms = length rows →
  ∃ labelled_rows,
    assign_labels rows cs ms = Some labelled_rows ∧
    l_row <$> labelled_rows = rows ∧
    predicted_cuisine <$> labelled_rows = cs ∧
    predicted_meal_type <$> labelled_rows = ms.
Proof.
  revert cs ms. induction rows as [|r rows IH]; intros [|c cs] [|m ms] Hc Hm;
    try discriminate.
  - by exists [].
  - destruct (IH cs ms) as (lr & E & H1 & H2 & H3); [by injection Hc|by injection Hm|].
    eexists. cbn. rewrite E. cbn. split; [done|]. cbn. by rewrite H1, H2, H3.
Qed.

(** C7, as the code has it.  The cuisine classifier is handed the
    raw-ingredient text of each recipe and the meal-type classifier the full
    text (the ingredient text, the raw-ingredient text and the step text,
    joined by blanks); when both answer every batch with as many labels as
    there are recipes, the filter returns exactly the recipes whose two
    labels equal the target cuisine and the target meal type up to case. *)
Theorem corpus_filter_two_texts (db : list recipe) (prefs : preferences) log cs ms :
  mapM cuisine_clf (batches (ingredients_raw_text <$> (prepare <$> db))) = Some cs →
  mapM meal_clf (batches (full_text <$> (prepare <$> db))) = Some ms →
  length (concat cs) = length db →
  length (concat ms) = length db →
  ∃ labelled_rows,
    l_row <$> labelled_rows = prepare <$> db ∧
    predicted_cuisine <$> labelled_rows = concat cs ∧
    predicted_meal_type <$> labelled_rows = concat ms ∧
    corpus_filter' db prefs log =
      (Returned
         (filter (λ r, py_lower (predicted_cuisine r) = py_lower (cuisine prefs) ∧
                       py_lower (predicted_meal_type r) =
                         py_lower (selected_meal_type prefs))
                 labelled_rows),
       log ++ (CuisinePredict <$> batches (ingredients_raw_text <$> (prepare <$> db)))
           ++ (MealPredict <$> batches (full_text <$> (prepare <$> db)))) ∧
    ∀ r, r ∈ prepare <$> db →
      full_text r =
        String.concat " " (default [] (ingredients (src r))) +:+ " " +:+
        join_cell (ingredients_raw (src r)) +:+ " " +:+ join_cell (steps (src r)).
Proof.
  intros Hcs Hms Hlc Hlm.
  destruct (assign_labels_Some (prepare <$> db) (concat cs) (concat ms))
    as (lr & E & H1 & H2 & H3); [by rewrite length_fmap..|].
  exists lr. split; [done|]. split; [done|]. split; [done|]. split.
  - unfold corpus_filter, mbind, M_bind.
    rewrite (predict_loop_answers _ _ _ cs) by done. cbn [app].
    rewrite Hlc, length_fmap, Nat.eqb_refl. cbn [negb].
    rewrite (predict_loop_answers _ _ _ ms) by done. cbn [app].
    rewrite E. unfold mret, M_ret. rewrite app_assoc. f_equal. f_equal.
    apply list_filter_iff. intros r. apply label_match_spec.
  - intros r (x & -> & Hx)%list_elem_of_fmap. reflexivity.
Qed.

Lemma effective_ingredients_union (r : row) raw :
  list_of_set_spec list_of_set →
  ingredients_raw (src r) = Some raw →
  NoDup (effective_ingredients list_of_set r) ∧
  ∀ x, x ∈ effective_ingredients list_of_set r ↔ x ∈ ingredients_list r ∨ x ∈ raw.
Proof.
  intros Hspec Hraw. unfold effective_ingredients. rewrite Hraw.
  pose proof (Hspec (list_to_set (ingredients_list r) ∪ list_to_set raw)) as Hp.
  split.
  - rewrite Hp. apply NoDup_elements.
  - intros x. rewrite Hp, elem_of_elements, elem_of_union, !elem_of_list_to_set. done.
Qed.

(** C5.  For every matching recipe the scoring step lists the set union of
    the recipe's [ingredients] and [ingredients_raw], each member once, and
    the recipe's [ingredient_score] is the match scorer's value for the user's
    ingredients, that list, the two policy flags and beta 0.2. *)
Theorem scores_use_the_union (prefs : preferences) (matching : list labelled) :
  list_of_set_spec list_of_set →
  Forall2
    (λ r c,
       c_row c = r ∧
       ingredient_score c =
         ingredient_match_score (user_ingredients_of prefs)
           (effective_ingredients list_of_set (l_row r))
           (flag (allow_substitutions prefs)) (flag (use_grocery prefs)) 0.2%float ∧
       ∀ raw, ingredients_raw (src (l_row r)) = Some raw →
         NoDup (effective_ingredients list_of_set (l_row r)) ∧
         ∀ x, x ∈ effective_ingredients list_of_set (l_row r) ↔
              x ∈ ingredients_list (l_row r) ∨ x ∈ raw)
    matching (score_rows list_of_set prefs matching).
Proof.
  intros Hspec. unfold score_rows. induction matching as [|r matching IH].
  - constructor.
  - cbn. constructor; [|done]. cbn. split; [done|]. split; [done|].
    intros raw Hraw. by apply effective_ingredients_union.
Qed.

Lemma assign_model_scores_length predictions ids (cands scored : list candidate) :
  assign_model_scores classes_ predictions ids cands = Some scored →
  Forall2 (λ c d, c_row d = c_row c ∧ ingredient_score d = ingredient_score c)
          cands scored.
Proof.
  revert cands. induction ids as [|[i rid] ids IH]; intros cands; cbn.
  - intros [= <-]. apply Forall2_same_length_lookup_2; [done|].
    intros j x y Hx Hy. by simplify_eq.
  - destruct (index_of rid classes_) as [j|]; [|apply IH].
    destruct (predictions !! i ≫= _) as [v|]; [|done].
    intros H%IH.
    apply Forall2_fmap_l in H. eapply Forall2_impl; [exact H|].
    intros c d [H1 H2]. cbn in H1, H2. by destruct (bool_decide _).
Qed.


(** C9, as the code has it.  When a call to a classifier or to the ranking
    oracle raises, the [try] block is left by the exception and
    [get_recommendations] returns [(None, None)]: no fallback score, no
    partial ranking, and the same value as for the two empty states. *)
Theorem oracle_failure_gives_empty_result db (prefs : preferences) r log :
  get_recommendations' db prefs = (r, log) →
  (∃ c, c ∈ log ∧ ¬ answered' c) →
  r = empty_result ∧ recommend' db prefs [] = (Raised, log).
Proof.
  unfold get_recommendations. intros Hrun (c & Hc & Hna).
  destruct (emits_recommend db prefs []) as (new & E & _ & HQ).
  destruct (recommend' db prefs []) as [[x|] log'] eqn:Er.
  - injection Hrun as <- <-. cbn in E, HQ. subst log'.
    assert (Forall answered' new) as Hall by (apply HQ; eauto).
    rewrite Forall_forall in Hall. by destruct (Hna (Hall c Hc)).
  - by injection Hrun as <- <-.
Qed.
End Runs.

Section StrictFilter.
Local Open Scope float_scope.
Variable cuisine_clf : list string → option (list string).
Variable meal_clf : list string → option (list string).
Variable infer : list string → list float → option (list (list float)).
Variable classes_ : list Z.
Variable list_of_set : gset string → list string.
Variable sort_values : list candidate → list candidate.

Lemma strict_score_sign (user recipe : list string) (sa : bool) (beta : float) :
  (0 <? ingredient_match_score user recipe sa false beta) = true ↔
  PrimFloat.leb (ingredient_match_score user recipe sa false beta) 0 = false.
Proof.
  destruct (strict_score_cases user recipe sa beta) as [E|E];
    rewrite E; vm_compute; split; congruence.
Qed.

Lemma filter_ext_Forall {X : Type} (P1 P2 : X → Prop)
    `{!∀ x, Decision (P1 x), !∀ x, Decision (P2 x)} (l : list X) :
  Forall (λ x, P1 x ↔ P2 x) l → filter P1 l = filter P2 l.
Proof.
  induction 1 as [|x l Hx Hl IH]; [done|].
  rewrite !filter_cons, IH. destruct (decide (P1 x)), (decide (P2 x)); tauto.
Qed.

(** C8.  The calls of the filter are classifier calls only.  When the filter
    leaves no recipe the run returns [(None, None)] there and then; when the
    user will not buy more, the rows kept are those whose score is not
    [<= 0], and when none is kept the run returns [(None, None)] as well.
    In both cases the value is returned, not raised, and the ranking oracle
    was not called. *)
Theorem empty_results_are_returned (db : list recipe) (prefs : preferences)
    (matching : list labelled) (log1 : list call) :
  let prefs' := set_ingredients prefs SAMPLE_INGREDIENTS in
  let scored := score_rows list_of_set prefs' matching in
  let run := recommend cuisine_clf meal_clf infer classes_ list_of_set sort_values db prefs [] in
  corpus_filter cuisine_clf meal_clf db prefs' [] = (Returned matching, log1) →
  Forall (λ c, is_infer c = false) log1 ∧
  (matching = [] → run = (Returned empty_result, log1)) ∧
  (flag (use_grocery prefs) = false →
     positive_scores scored =
       filter (λ c, PrimFloat.leb (ingredient_score c) 0 = false) scored ∧
     (positive_scores scored = [] → run = (Returned empty_result, log1))) ∧
  (run = (Returned empty_result, log1) →
     get_recommendations cuisine_clf meal_clf infer classes_ list_of_set sort_values
       db prefs = (empty_result, log1)).
Proof.
  intros prefs' scored run Hf.
  assert (run =
          if Nat.eqb (length matching) 0 then (Returned empty_result, log1)
          else if negb (flag (use_grocery prefs')) then
            if Nat.eqb (length (positive_scores scored)) 0
            then (Returned empty_result, log1)
            else rank infer classes_ sort_values prefs' (positive_scores scored) log1
          else rank infer classes_ sort_values prefs' scored log1) as Hrun.
  { unfold run. rewrite recommend_unfold. cbv zeta. fold prefs'. by rewrite Hf. }
  split; [|split; [|split]].
  - destruct (emits_corpus_filter cuisine_clf meal_clf infer db prefs' [])
      as (new & E & HP & _).
    rewrite Hf in E. cbn in E. by subst.
  - intros ->. by rewrite Hrun.
  - intros Hg. split.
    + unfold positive_scores. apply filter_ext_Forall.
      apply Forall_forall. intros c (r & -> & _)%list_elem_of_fmap.
      cbn [ingredient_score]. change (flag (use_grocery prefs')) with (flag (use_grocery prefs)).
      rewrite Hg. apply strict_score_sign.
    + intros Hk. rewrite Hrun. destruct (Nat.eqb (length matching) 0); [done|].
      change (flag (use_grocery prefs')) with (flag (use_grocery prefs)).
      rewrite Hg. cbn [negb]. by rewrite Hk.
  - intros Hr. unfold get_recommendations. fold run. by rewrite Hr.
Qed.
End StrictFilter.

(** ** The sample corpus: instances and counterexamples *)

Section Examples.
Import Sample.
Local Open Scope float_scope.

Lemma elements_list_of_set_spec : list_of_set_spec elements.
Proof. intros X. reflexivity. Qed.

Lemma scores_use_the_union_witness :
  list_of_set_spec elements ∧
  Forall2
    (λ r c,
       c_row c = r ∧
       ingredient_score c =
         ingredient_match_score SAMPLE_INGREDIENTS
           (effective_ingredients elements (l_row r)) false false 0.2 ∧
       ∀ raw, ingredients_raw (src (l_row r)) = Some raw →
         NoDup (effective_ingredients elements (l_row r)) ∧
         ∀ x, x ∈ effective_ingredients elements (l_row r) ↔
              x ∈ ingredients_list (l_row r) ∨ x ∈ raw)
    [labelled_of bread; labelled_of cake]
    (score_rows elements (set_ingredients strict_prefs SAMPLE_INGREDIENTS)
       [labelled_of bread; labelled_of cake]).
Proof.
  split; [exact elements_list_of_set_spec|].
  exact (scores_use_the_union elements
           (set_ingredients strict_prefs SAMPLE_INGREDIENTS)
           [labelled_of bread; labelled_of cake] elements_list_of_set_spec).
Defined.




(** C7, refuted as stated.  On the sample corpus the cuisine classifier is
    called with the raw-ingredient texts and the meal-type classifier with the
    full texts; a filter that hands one feature text to both keeps another
    set of recipes. *)
Lemma one_text_filter_differs :
  corpus_filter cuisine_by_text (always "snacks") corpus strict_prefs []
  = (Returned [labelled_of bread],
     [CuisinePredict ["Flour warm water"; "egg"];
      MealPredict ["flour water yeast Flour warm water mix bake";
                   "flour egg sugar egg whisk"]]) ∧
  corpus_filter_one_text cuisine_by_text (always "snacks") corpus strict_prefs []
  = (Returned [],
     [CuisinePredict ["flour water yeast Flour warm water mix bake";
                      "flour egg sugar egg whisk"];
      MealPredict ["flour water yeast Flour warm water mix bake";
                   "flour egg sugar egg whisk"]]) ∧
  corpus_filter cuisine_by_text (always "snacks") corpus strict_prefs []
  ≠ corpus_filter_one_text cuisine_by_text (always "snacks") corpus strict_prefs [].
Proof.
  assert (corpus_filter cuisine_by_text (always "snacks") corpus strict_prefs []
          = (Returned [labelled_of bread],
             [CuisinePredict ["Flour warm water"; "egg"];
              MealPredict ["flour water yeast Flour warm water mix bake";
                           "flour egg sugar egg whisk"]])) as H1
    by (vm_compute; reflexivity).
  assert (corpus_filter_one_text cuisine_by_text (always "snacks") corpus strict_prefs []
          = (Returned [],
             [CuisinePredict ["flour water yeast Flour warm water mix bake";
                              "flour egg sugar egg whisk"];
              MealPredict ["flour water yeast Flour warm water mix bake";
                           "flour egg sugar egg whisk"]])) as H2
    by (vm_compute; reflexivity).
  split; [done|]. split; [done|]. rewrite H1, H2. discriminate.
Qed.

Lemma corpus_filter_two_texts_witness :
  ∃ kept,
    corpus_filter cuisine_by_text (always "Snacks") corpus strict_prefs []
    = (Returned kept,
       [CuisinePredict ["Flour warm water"; "egg"];
        MealPredict ["flour water yeast Flour warm water mix bake";
                     "flour egg sugar egg whisk"]]) ∧
    (src ∘ l_row) <$> kept = [bread].
Proof.
  destruct (corpus_filter_two_texts cuisine_by_text (always "Snacks") corpus
              strict_prefs [] [["French"; "Thai"]] [["Snacks"; "Snacks"]])
    as (lr & H1 & H2 & H3 & Hrun & _);
    [vm_compute; reflexivity..|].
  eexists. split; [exact Hrun|].
  destruct lr as [|a [|b [|c lr]]]; try discriminate.
  cbn in H1, H2, H3. injection H1 as Ha Hb. injection H2 as Ha2 Hb2.
  injection H3 as Ha3 Hb3.
  destruct a as [ra ca ma], b as [rb cb mb]. cbn in *. subst.
  vm_compute. reflexivity.
Defined.

Lemma empty_results_are_returned_witness :
  get_recommendations (always "French") (always "snacks") relevance classes
    elements insertion_sort corpus thai_prefs
  = (empty_result,
     [CuisinePredict ["Flour warm water"; "egg"];
      MealPredict ["flour water yeast Flour warm water mix bake";
                   "flour egg sugar egg whisk"]]) ∧
  get_recommendations (always "French") (always "snacks") relevance classes
    elements insertion_sort [cake] strict_prefs
  = (empty_result,
     [CuisinePredict ["egg"]; MealPredict ["flour egg sugar egg whisk"]]).
Proof.
  split.
  - destruct (empty_results_are_returned (always "French") (always "snacks") relevance
                classes elements insertion_sort corpus thai_prefs []
                [CuisinePredict ["Flour warm water"; "egg"];
                 MealPredict ["flour water yeast Flour warm water mix bake";
                              "flour egg sugar egg whisk"]])
      as (_ & H2 & _ & H4); [vm_compute; reflexivity|].
    apply H4, H2. reflexivity.
  - destruct (empty_results_are_returned (always "French") (always "snacks") relevance
                classes elements insertion_sort [cake] strict_prefs
                [labelled_of cake]
                [CuisinePredict ["egg"]; MealPredict ["flour egg sugar egg whisk"]])
      as (_ & _ & H3 & H4); [vm_compute; reflexivity|].
    destruct (H3 eq_refl) as [_ H5]. apply H4, H5. vm_compute. reflexivity.
Defined.

(** C9, refuted as stated.  A cuisine classifier that raises: the run of
    the [try] block ends by the exception, and the caller receives
    [(None, None)], the value it receives when the filter leaves no recipe. *)
Lemma oracle_failure_looks_like_an_empty_state :
  get_recommendations failing (always "snacks") relevance classes
    elements insertion_sort corpus strict_prefs
  = (empty_result, [CuisinePredict ["Flour warm water"; "egg"]]) ∧
  recommend failing (always "snacks") relevance classes
    elements insertion_sort corpus strict_prefs []
  = (Raised, [CuisinePredict ["Flour warm water"; "egg"]]) ∧
  (get_recommendations failing (always "snacks") relevance classes
     elements insertion_sort corpus strict_prefs).1
  = (get_recommendations (always "French") (always "snacks") relevance classes
       elements insertion_sort corpus thai_prefs).1.
Proof. split; [|split]; vm_compute; reflexivity. Qed.

Lemma oracle_failure_gives_empty_result_witness :
  (get_recommendations failing (always "snacks") relevance classes
     elements insertion_sort corpus strict_prefs).1 = empty_result ∧
  recommend failing (always "snacks") relevance classes
    elements insertion_sort corpus strict_prefs []
  = (Raised, [CuisinePredict ["Flour warm water"; "egg"]]).
Proof.
  destruct (oracle_failure_gives_empty_result failing (always "snacks") relevance classes
              elements insertion_sort corpus strict_prefs
              (get_recommendations failing (always "snacks") relevance classes
                 elements insertion_sort corpus strict_prefs).1
              [CuisinePredict ["Flour warm water"; "egg"]]) as [H1 H2].
  - vm_compute. reflexivity.
  - exists (CuisinePredict ["Flour warm water"; "egg"]). split.
    + apply list_elem_of_here.
    + cbn. by intros [x Hx].
  - split; [exact H1|exact H2].
Defined.
End Examples.

(** ** Normal forms of ingredient names *)

















(** ** More about the match scorer *)

Lemma match_step_normal_form aug sa (m : float) (i i' : string) :
  normalize i = normalize i' → match_step aug sa m i = match_step aug sa m i'.
Proof. intros H. unfold match_step. by rewrite H. Qed.

Lemma fold_match_step_normal_forms aug sa (recipe recipe' : list string) (m : float) :
  normalize <$> recipe = normalize <$> recipe' →
  fold_left (match_step aug sa) recipe m = fold_left (match_step aug sa) recipe' m.
Proof.
  revert recipe' m. induction recipe as [|i recipe IH]; intros [|i' recipe'] m H;
    try discriminate; [done|].
  cbn in H. injection H as Hi Hr. cbn.
  rewrite (match_step_normal_form aug sa m i i' Hi). by apply IH.
Qed.

Lemma used_explicit_normal_forms explicit (recipe recipe' : list string) :
  normalize <$> recipe = normalize <$> recipe' →
  used_explicit explicit recipe = used_explicit explicit recipe'.
Proof.
  unfold used_explicit.
  revert recipe'. induction recipe as [|i recipe IH]; intros [|i' recipe'] H;
    try discriminate; [done|].
  cbn in H. injection H as Hi Hr. rewrite !filter_cons, Hi.
  destruct (decide (normalize i' ∈ explicit)); cbn; by rewrite (IH recipe').
Qed.

Lemma score_normal_forms (user user' recipe recipe' : list string) sa wb (beta : float) :
  user_explicit user = user_explicit user' →
  normalize <$> recipe = normalize <$> recipe' →
  ingredient_match_score user recipe sa wb beta =
  ingredient_match_score user' recipe' sa wb beta.
Proof.
  intros Hu Hr. unfold ingredient_match_score, augmented_user_set, recipe_non_default,
    bonus_of, matched_sum.
  rewrite Hu, Hr.
  rewrite (fold_match_step_normal_forms _ sa recipe recipe') by done.
  rewrite (used_explicit_normal_forms _ recipe recipe') by done.
  assert (length recipe = length recipe') as ->; [|done].
  by rewrite <- (length_fmap normalize recipe), Hr, length_fmap.
Qed.

Lemma user_explicit_members (user user' : list string) :
  (∀ x, x ∈ normalize <$> user ↔ x ∈ normalize <$> user') →
  user_explicit user = user_explicit user'.
Proof.
  intros H. apply set_eq. intros x. unfold user_explicit.
  by rewrite !elem_of_list_to_set.
Qed.

(** X1.  The score reads the user's list as a set of normal forms and the recipe
    as a list of normal forms: letter case, blanks around a name, and the
    order and repetition of the user's names make no difference. *)
Theorem score_reads_normal_forms (user user' recipe recipe' : list string)
    (sa wb : bool) (beta : float) :
  (∀ x, x ∈ normalize <$> user ↔ x ∈ normalize <$> user') →
  normalize <$> recipe = normalize <$> recipe' →
  ingredient_match_score user recipe sa wb beta =
  ingredient_match_score user' recipe' sa wb beta.
Proof. intros Hu Hr. by apply score_normal_forms; [apply user_explicit_members|]. Qed.

Lemma score_reads_normal_forms_witness :
  ingredient_match_score ["Milk "; "egg"; "milk"] [" FLOUR"; "Milk"] true true 0.2 =
  ingredient_match_score ["egg"; "milk"] ["flour"; "milk"] true true 0.2.
Proof.
  apply score_reads_normal_forms; [|reflexivity].
  intros x. cbn. rewrite !elem_of_cons. tauto.
Defined.


(** X3.  The strict gate is monotone: a user who has more, or a recipe that asks
    for less, keeps a score of 1.0. *)
Theorem strict_gate_monotone (user user' recipe recipe' : list string)
    (sa sa' : bool) (beta beta' : float) :
  (∀ x, x ∈ user → x ∈ user') →
  (∀ x, x ∈ recipe' → x ∈ recipe) →
  ingredient_match_score user recipe sa false beta = 1%float →
  ingredient_match_score user' recipe' sa' false beta' = 1%float.
Proof.
  intros Hu Hr H1.
  destruct (strict_feasible_dec user recipe) as [Hf|Hf].
  - apply strict_score_feasible. intros r Hin Hd.
    destruct (Hf r (Hr r Hin) Hd) as (u & Hu' & E). exists u. split; [by apply Hu|done].
  - rewrite (strict_score_infeasible user recipe sa beta Hf) in H1.
    discriminate (f_equal PrimFloat.is_zero H1).
Qed.

Lemma strict_gate_monotone_witness :
  ingredient_match_score ["flour"; "yeast"; "egg"] ["Flour"; "salt"] true false 0.5 = 1%float.
Proof.
  apply (strict_gate_monotone ["flour"; "yeast"] _ ["flour"; "Flour"; "salt"; "yeast"] _
           false true 0.2%float 0.5%float).
  - intros x. rewrite !elem_of_cons. tauto.
  - intros x. rewrite !elem_of_cons. tauto.
  - vm_compute. reflexivity.
Defined.

(** ** The ingredient list of the generator tab *)

Lemma append_missing_cons (current : list string) (x : string) (new : list string) :
  append_missing current (x :: new) =
  append_missing (if bool_decide (x ∈ current) then current else current ++ [x]) new.
Proof. reflexivity. Qed.

(** What [append_missing] appends: the new names that the list lacks, each
    once, in the order of their first occurrence. *)
Lemma append_missing_appends (current new : list string) :
  ∃ k, append_missing current new = current ++ k ∧ NoDup k ∧ sublist k new ∧
       ∀ x, x ∈ k ↔ x ∈ new ∧ x ∉ current.
Proof.
  revert current. induction new as [|y new IH]; intros current.
  - exists []. rewrite app_nil_r. split; [done|]. split; [constructor|].
    split; [done|]. intros x. rewrite elem_of_nil. tauto.
  - rewrite append_missing_cons. case_bool_decide as Hy.
    + destruct (IH current) as (k & E & Hnd & Hsub & Hk). exists k.
      split; [done|]. split; [done|]. split; [by apply sublist_cons|].
      intros x. rewrite Hk, elem_of_cons. split; [tauto|].
      intros [[->|Hx] Hn]; [done|tauto].
    + destruct (IH (current ++ [y])) as (k & E & Hnd & Hsub & Hk). exists (y :: k).
      rewrite E, <- app_assoc. split; [done|]. split.
      { constructor; [|done]. rewrite Hk, elem_of_app, list_elem_of_singleton. tauto. }
      split; [by apply sublist_skip|].
      intros x. rewrite !elem_of_cons, Hk, elem_of_app, list_elem_of_singleton.
      destruct (decide (x = y)) as [->|Hne]; tauto.
Qed.

Lemma elem_of_append_missing (current new : list string) (x : string) :
  x ∈ append_missing current new ↔ x ∈ current ∨ x ∈ new.
Proof.
  destruct (append_missing_appends current new) as (k & -> & _ & _ & Hk).
  rewrite elem_of_app, Hk. destruct (decide (x ∈ current)); tauto.
Qed.

Lemma NoDup_append_missing (current new : list string) :
  NoDup current → NoDup (append_missing current new).
Proof.
  intros Hnd. destruct (append_missing_appends current new) as (k & -> & Hk & _ & Hin).
  apply NoDup_app. split; [done|]. split; [|done].
  intros x Hx Hxk. apply Hin in Hxk. tauto.
Qed.




Lemma py_split_not_nil (sep : ascii) (s : string) : py_split sep s ≠ [].
Proof.
  induction s as [|c s IH]; [done|]. cbn. destruct (Ascii.eqb c sep); [done|].
  by destruct (py_split sep s).
Qed.


Lemma py_lower_eq_empty (s : string) : py_lower s = "" ↔ s = "".
Proof. by destruct s. Qed.



Lemma update_fold_append_missing (adds current : list string) :
  fold_left
    (λ cur ing, if bool_decide (ing ≠ "") && bool_decide (ing ∉ cur)
                then cur ++ [ing] else cur) adds current
  = append_missing current (filter (λ a, a ≠ "") adds).
Proof.
  revert current. induction adds as [|a adds IH]; intros current; [done|].
  cbn [fold_left]. rewrite filter_cons. destruct (decide (a ≠ "")) as [Ha|Ha].
  - rewrite append_missing_cons, (bool_decide_eq_true_2 _ Ha). cbn [andb].
    rewrite IH. by destruct (decide (a ∈ current));
      [rewrite bool_decide_eq_false_2, bool_decide_eq_true_2 by tauto
      |rewrite bool_decide_eq_true_2, bool_decide_eq_false_2 by tauto].
  - rewrite (bool_decide_eq_false_2 _ Ha). cbn [andb]. apply IH.
Qed.

Lemma filter_Forall_id {X : Type} (P : X → Prop) `{!∀ x, Decision (P x)} (l : list X) :
  Forall P l → filter P l = l.
Proof.
  induction 1 as [|x l Hx Hl IH]; [done|]. rewrite filter_cons, IH.
  by destruct (decide (P x)).
Qed.

Lemma filter_nonempty_additions (new_ingredient : string) :
  filter (λ a, a ≠ "") (additions new_ingredient) = additions new_ingredient.
Proof.
  apply filter_Forall_id, Forall_forall. intros a (x & -> & Hx)%list_elem_of_fmap.
  apply list_elem_of_filter in Hx as [[Hne _] _]. by rewrite py_lower_eq_empty.
Qed.

(** X7.  After an update from the text field the list holds the names it held
    and the additions, without the removals: a name that is both added and
    removed is gone.  The names that stay keep their order and come first. *)
Theorem update_ingredients_adds_then_removes (new_ingredient : string)
    (current_ingredients : list string) :
  (∀ x, x ∈ update_ingredients new_ingredient current_ingredients ↔
        (x ∈ current_ingredients ∨ x ∈ additions new_ingredient) ∧
        x ∉ removals new_ingredient) ∧
  filter (λ ing, ing ∉ removals new_ingredient) current_ingredients
    `prefix_of` update_ingredients new_ingredient current_ingredients.
Proof.
  unfold update_ingredients. rewrite update_fold_append_missing, filter_nonempty_additions.
  split.
  - intros x. by rewrite list_elem_of_filter, elem_of_append_missing, (comm and).
  - destruct (append_missing_appends current_ingredients (additions new_ingredient))
      as (k & -> & _). rewrite filter_app. by eexists.
Qed.





Lemma elem_of_guarded_append (b : bool) (current new : list string) (x : string) :
  x ∈ (if bool_decide (new ≠ []) && b then append_missing current new else current) ↔
  x ∈ current ∨ (b = true ∧ x ∈ new).
Proof.
  destruct b; rewrite ?andb_true_r, ?andb_false_r.
  - case_bool_decide as H.
    + rewrite elem_of_append_missing. intuition.
    + subst new. rewrite elem_of_nil. intuition.
  - split; [tauto|]. by intros [?|[? _]].
Qed.

Lemma elem_of_combined_ingredients prefs (current pantry grocery : list string)
    (include_pantry include_grocery : bool) (x : string) :
  x ∈ combined_ingredients prefs current pantry grocery include_pantry include_grocery ↔
  x ∈ current ∨ (include_pantry = true ∧ x ∈ pantry) ∨
  (flag (use_grocery prefs) = true ∧ include_grocery = true ∧ x ∈ grocery).
Proof.
  unfold combined_ingredients. destruct (flag (use_grocery prefs)); cbn [andb].
  - rewrite !elem_of_guarded_append. intuition.
  - rewrite elem_of_guarded_append. split; [tauto|]. by intros [?|[?|[? _]]]; auto.
Qed.

(** X9.  The list handed to the recommender holds the current names first, as
    they stand, then names of the pantry when its box is ticked, then names
    of the grocery list when the preferences allow groceries and its box is
    ticked; nothing else. *)
Theorem combined_ingredients_members prefs (current_ingredients pantry grocery : list string)
    (include_pantry include_grocery : bool) :
  current_ingredients `prefix_of`
    combined_ingredients prefs current_ingredients pantry grocery
      include_pantry include_grocery ∧
  ∀ x, x ∈ combined_ingredients prefs current_ingredients pantry grocery
             include_pantry include_grocery ↔
       x ∈ current_ingredients ∨ (include_pantry = true ∧ x ∈ pantry) ∨
       (flag (use_grocery prefs) = true ∧ include_grocery = true ∧ x ∈ grocery).
Proof.
  split; [|apply elem_of_combined_ingredients].
  unfold combined_ingredients.
  assert (∀ a b : list string, a `prefix_of` append_missing a b) as Hp.
  { intros a b. destruct (append_missing_appends a b) as (k & -> & _). by eexists. }
  destruct (_ && include_grocery), (_ && include_pantry); try done;
    try apply Hp. etransitivity; apply Hp.
Qed.

(** X10.  A list without repeated names stays so under each operation of the
    tab: the merge of detected names, the delete buttons, the update from
    the text field, and the merge with the pantry and the grocery list. *)
Theorem tab_keeps_names_distinct prefs (current_ingredients : list string)
    (detected : list (string * float)) (pressed : nat → bool) (new_ingredient : string)
    (pantry grocery : list string) (include_pantry include_grocery : bool) :
  NoDup current_ingredients →
  NoDup (add_detected current_ingredients detected) ∧
  NoDup (remove_pressed pressed current_ingredients) ∧
  NoDup (update_ingredients new_ingredient current_ingredients) ∧
  NoDup (combined_ingredients prefs current_ingredients pantry grocery
           include_pantry include_grocery).
Proof.
  intros Hnd. split; [by apply NoDup_append_missing|]. split; [|split].
  - unfold remove_pressed. case_bool_decide; [by apply NoDup_filter|done].
  - unfold update_ingredients. rewrite update_fold_append_missing.
    by apply NoDup_filter, NoDup_append_missing.
  - unfold combined_ingredients.
    destruct (_ && include_grocery), (_ && include_pantry);
      repeat apply NoDup_append_missing; done.
Qed.

(** ** Finding and loading the model files *)

Section FilesFacts.
Variable os_path_join : string → string → string.
Variable os_path_exists : string → bool.
Variable saved_model_load :
  string → option (list string → list float → option (list (list float))).
Variable pickle_load_encoder : string → option (list Z).
Variable joblib_load : string → option (list string → option (list string)).
Variable pickle_load_table : string → option (list recipe).
Variable read_csv : string → option (list recipe).
Variable list_of_set : gset string → list string.
Variable sort_values : list candidate → list candidate.

Abbreviation find_file' := (find_file os_path_join os_path_exists).
Abbreviation load_model_files' :=
  (load_model_files os_path_join os_path_exists saved_model_load pickle_load_encoder
     joblib_load pickle_load_table read_csv).
Abbreviation search_path := [models_dir; ai_models_dir].

Lemma find_in_directory_head (directory : string) (filenames : list string) :
  find_in_directory os_path_join os_path_exists directory filenames =
  head (filter (λ p, os_path_exists p = true) (os_path_join directory <$> filenames)).
Proof.
  induction filenames as [|f fs IH]; [done|]. cbn [find_in_directory fmap list_fmap].
  rewrite filter_cons. destruct (os_path_exists _) eqn:E.
  - by rewrite decide_True.
  - by rewrite decide_False by congruence.
Qed.

Lemma head_app_filter {X : Type} (l1 l2 : list X) :
  head (l1 ++ l2) = match head l1 with Some x => Some x | None => head l2 end.
Proof. by destruct l1. Qed.

Lemma find_file_head (filenames directories : list string) :
  find_file' filenames directories =
  head (filter (λ p, os_path_exists p = true)
          (directories ≫= λ d, os_path_join d <$> filenames)).
Proof.
  induction directories as [|d ds IH]; [done|].
  cbn [find_file mbind list_bind]. rewrite filter_app, head_app_filter.
  by rewrite find_in_directory_head, IH.
Qed.

(** X11.  [find_file] returns the first path that exists, going through the
    directories in order and, within a directory, through the file names in
    order; it returns [None] exactly when no such path exists. *)
Theorem find_file_first_existing (filenames directories : list string) :
  find_file os_path_join os_path_exists filenames directories =
    head (filter (λ p, os_path_exists p = true)
            (directories ≫= λ d, os_path_join d <$> filenames)) ∧
  (∀ p, find_file os_path_join os_path_exists filenames directories = Some p →
     os_path_exists p = true ∧
     ∃ d f, d ∈ directories ∧ f ∈ filenames ∧ p = os_path_join d f) ∧
  (find_file os_path_join os_path_exists filenames directories = None ↔
     ∀ d f, d ∈ directories → f ∈ filenames → os_path_exists (os_path_join d f) = false).
Proof.
  split; [apply find_file_head|]. rewrite find_file_head. split.
  - intros p Hp. apply head_Some_elem_of, list_elem_of_filter in Hp as [He Hp].
    split; [done|]. apply list_elem_of_bind in Hp as (d & Hp & Hd).
    apply list_elem_of_fmap in Hp as (f & -> & Hf). eauto.
  - rewrite head_None. split.
    + intros Hnil d f Hd Hf. apply not_true_is_false. intros He.
      assert (os_path_join d f ∈
                filter (λ p, os_path_exists p = true)
                  (directories ≫= λ d, os_path_join d <$> filenames)) as Hin.
      { apply list_elem_of_filter. split; [done|]. apply list_elem_of_bind.
        exists d. split; [|done]. apply list_elem_of_fmap. eauto. }
      rewrite Hnil in Hin. by apply elem_of_nil in Hin.
    + intros Hno.
      destruct (filter _ _) as [|p l] eqn:E; [done|].
      assert (p ∈ p :: l) as Hin by apply list_elem_of_here.
      rewrite <- E in Hin. apply list_elem_of_filter in Hin as [He Hp].
      apply list_elem_of_bind in Hp as (d & Hp & Hd).
      apply list_elem_of_fmap in Hp as (f & -> & Hf).
      rewrite (Hno d f Hd Hf) in He. discriminate.
Qed.

(** A file that [load_model_files] asks for: found under "." if it lies
    there, and else under "ai model". *)
Lemma required_found (filename message path : string) :
  required (find_file' [filename] search_path) message = inr path →
  path ≠ "" ∧ os_path_exists path = true ∧
  find_file' [filename] search_path = Some path ∧
  (path = os_path_join models_dir filename ∨
   os_path_exists (os_path_join models_dir filename) = false ∧
   path = os_path_join ai_models_dir filename).
Proof.
  unfold required. cbn [find_file find_in_directory].
  destruct (os_path_exists (os_path_join models_dir filename)) eqn:E1.
  - case_bool_decide; [done|]. intros [= <-]. repeat split; auto.
  - destruct (os_path_exists (os_path_join ai_models_dir filename)) eqn:E2; [|done].
    case_bool_decide; [done|]. intros [= <-]. repeat split; auto.
Qed.

Lemma required_missing (filename message : string) :
  (∀ d, d ∈ search_path → os_path_exists (os_path_join d filename) = false) →
  required (find_file' [filename] search_path) message = inl (FileNotFoundError message).
Proof.
  intros H. cbn [find_file find_in_directory].
  rewrite (H models_dir), (H ai_models_dir) by (rewrite !elem_of_cons; auto). done.
Qed.

(** X12.  When [load_model_files] returns, the model directory exists and each
    thing it returns was loaded from a file that exists, taken from "." if
    the file lies there and else from "ai model"; the recipe table comes
    from the pickle whenever one is found, and from the CSV only when none
    is. *)
Theorem load_model_files_reads_existing_files (files : model_files) :
  load_model_files' = inr files →
  let model_dir := os_path_join ai_models_dir "recipe_model_tf" in
  let found filename path :=
    os_path_exists path = true ∧
    (path = os_path_join models_dir filename ∨
     os_path_exists (os_path_join models_dir filename) = false ∧
     path = os_path_join ai_models_dir filename) in
  os_path_exists model_dir = true ∧
  saved_model_load model_dir = Some (mf_infer files) ∧
  (∃ p, found "le_recipe.pkl" p ∧ pickle_load_encoder p = Some (mf_classes_ files)) ∧
  (∃ p, found "cuisine_clf.joblib" p ∧ joblib_load p = Some (mf_cuisine_clf files)) ∧
  (∃ p, found "recipe_category_clf.joblib" p ∧ joblib_load p = Some (mf_meal_clf files)) ∧
  ((∃ p, found "recipe_database.pkl" p ∧
         pickle_load_table p = Some (mf_recipe_db files)) ∨
   (∀ p, find_file' ["recipe_database.pkl"] search_path = Some p → p = "") ∧
   ∃ p, found "recipes_ingredients.csv" p ∧ read_csv p = Some (mf_recipe_db files)).
Proof.
  unfold load_model_files. cbv zeta.
  destruct (os_path_exists (os_path_join ai_models_dir "recipe_model_tf")) eqn:Edir;
    [|done]. cbn [negb].
  destruct (saved_model_load _) as [infer|] eqn:Einfer; [|done]. cbn [loaded and_then].
  destruct (required (find_file' ["le_recipe.pkl"] _) _) as [|le_path] eqn:Ele; [done|].
  cbn [and_then].
  destruct (pickle_load_encoder le_path) as [classes|] eqn:Ecl; [|done].
  cbn [loaded and_then].
  destruct (required (find_file' ["cuisine_clf.joblib"] _) _) as [|c_path] eqn:Ec; [done|].
  cbn [and_then].
  destruct (joblib_load c_path) as [cclf|] eqn:Ecc; [|done]. cbn [loaded and_then].
  destruct (required (find_file' ["recipe_category_clf.joblib"] _) _) as [|m_path] eqn:Em;
    [done|]. cbn [and_then].
  destruct (joblib_load m_path) as [mclf|] eqn:Emc; [|done]. cbn [loaded and_then].
  destruct (load_recipe_db _ _ _ _) as [|db] eqn:Edb; [done|]. cbn [and_then].
  intros [= <-]. cbn [mf_infer mf_classes_ mf_cuisine_clf mf_meal_clf mf_recipe_db].
  apply required_found in Ele as (_ & ? & _ & ?), Ec as (_ & ? & _ & ?),
    Em as (_ & ? & _ & ?).
  split; [done|]. split; [done|].
  split; [by exists le_path|]. split; [by exists c_path|]. split; [by exists m_path|].
  unfold load_recipe_db in Edb.
  assert (∀ q, and_then
            (required (find_file' ["recipes_ingredients.csv"] search_path)
               "Recipe database not found")
            (λ recipe_path, loaded (read_csv recipe_path)) = inr q →
          ∃ p, (os_path_exists p = true ∧
                (p = os_path_join models_dir "recipes_ingredients.csv" ∨
                 os_path_exists (os_path_join models_dir "recipes_ingredients.csv") = false ∧
                 p = os_path_join ai_models_dir "recipes_ingredients.csv")) ∧
               read_csv p = Some q) as Hcsv.
  { intros q Hq.
    destruct (required (find_file' ["recipes_ingredients.csv"] _) _) as [|p] eqn:Ep; [done|].
    cbn [and_then] in Hq. apply required_found in Ep as (_ & ? & _ & ?).
    exists p. split; [done|]. by destruct (read_csv p) as [v|]; [injection Hq as ->|]. }
  destruct (find_file' ["recipe_database.pkl"] _) as [p|] eqn:Ep.
  - case_bool_decide as Hp.
    + right. split; [by intros ? [= <-]|]. by apply Hcsv.
    + left. exists p. split.
      * assert (required (find_file' ["recipe_database.pkl"] search_path) "" = inr p)
          as Hr by (rewrite Ep; unfold required; by rewrite bool_decide_eq_false_2).
        by apply required_found in Hr as (_ & ? & _ & ?).
      * by destruct (pickle_load_table p) as [v|]; [injection Edb as ->|].
  - right. split; [done|]. by apply Hcsv.
Qed.

(** X13.  The files are loaded inside the [try] block: when the model
    directory or one of the files is missing, [get_recommendations] returns
    [(None, None)], and no oracle is called. *)
Theorem missing_file_gives_empty_result (prefs : preferences) :
  let missing filename :=
    ∀ d, d ∈ search_path → os_path_exists (os_path_join d filename) = false in
  os_path_exists (os_path_join ai_models_dir "recipe_model_tf") = false ∨
  missing "le_recipe.pkl" ∨ missing "cuisine_clf.joblib" ∨
  missing "recipe_category_clf.joblib" ∨
  (missing "recipe_database.pkl" ∧ missing "recipes_ingredients.csv") →
  get_recommendations_from_files os_path_join os_path_exists saved_model_load
    pickle_load_encoder joblib_load pickle_load_table read_csv list_of_set sort_values
    prefs = (empty_result, []).
Proof.
  intros missing H. unfold get_recommendations_from_files.
  assert (∃ e, load_model_files' = inl e) as [e ->]; [|done].
  unfold load_model_files. cbv zeta.
  destruct (os_path_exists (os_path_join ai_models_dir "recipe_model_tf")) eqn:Edir;
    [|by eexists]. cbn [negb].
  destruct H as [H|H]; [done|].
  destruct (saved_model_load _) as [infer|]; [|by eexists]. cbn [loaded and_then].
  destruct (required (find_file' ["le_recipe.pkl"] _) _) as [|le_path] eqn:Ele;
    [by eexists|].
  destruct H as [H|H]; [by rewrite required_missing in Ele|]. cbn [and_then].
  destruct (pickle_load_encoder le_path); [|by eexists]. cbn [loaded and_then].
  destruct (required (find_file' ["cuisine_clf.joblib"] _) _) as [|c_path] eqn:Ec;
    [by eexists|].
  destruct H as [H|H]; [by rewrite required_missing in Ec|]. cbn [and_then].
  destruct (joblib_load c_path); [|by eexists]. cbn [loaded and_then].
  destruct (required (find_file' ["recipe_category_clf.joblib"] _) _) as [|m_path] eqn:Em;
    [by eexists|].
  destruct H as [H|[H1 H2]]; [by rewrite required_missing in Em|]. cbn [and_then].
  destruct (joblib_load m_path); [|by eexists]. cbn [loaded and_then].
  unfold load_recipe_db.
  assert (find_file' ["recipe_database.pkl"] search_path = None) as ->.
  { cbn [find_file find_in_directory].
    by rewrite (H1 models_dir), (H1 ai_models_dir) by (rewrite !elem_of_cons; auto). }
  rewrite required_missing by done. by eexists.
Qed.
End FilesFacts.

(** ** Batches *)

Lemma concat_slices (col : list string) (size k c : nat) :
  concat ((λ i, iloc_slice col i (i + size)) <$> ((λ k, k * size) <$> seq k c))
  = take (c * size) (drop (k * size) col).
Proof.
  revert k. induction c as [|c IH]; intros k; [done|].
  cbn [seq fmap list_fmap concat]. rewrite (IH (S k)). unfold iloc_slice.
  replace (k * size + size - k * size) with size by lia.
  replace (S k * size) with (k * size + size) by lia.
  rewrite <- drop_drop, take_take_drop. by f_equal.
Qed.

Lemma batch_count_covers (n : nat) :
  (n ≤ (n + batch_size - 1) / batch_size * batch_size)%nat ∧
  ∀ k, (k < (n + batch_size - 1) / batch_size → k * batch_size < n)%nat.
Proof.
  unfold batch_size.
  pose proof (Nat.div_mod_eq (n + 500 - 1) 500) as E.
  pose proof (Nat.mod_upper_bound (n + 500 - 1) 500 ltac:(lia)) as Hr.
  split; [lia|]. intros k Hk.
  assert (k * 500 ≤ ((n + 500 - 1) / 500 - 1) * 500)%nat
    by (apply Nat.mul_le_mono_r; lia).
  lia.
Qed.

Lemma concat_batches (col : list string) : concat (batches col) = col.
Proof.
  destruct (batch_count_covers (length col)) as [Hcov _].
  unfold batches, batch_starts. rewrite concat_slices, drop_0. by apply take_ge.
Qed.

(** X14.  The prediction loops cut a column into batches of at most 500 texts:
    no batch is empty, and the batches, one after the other, are the column:
    every text is handed over once, in the order of the table. *)
Theorem batches_partition (col : list string) :
  concat (batches col) = col ∧
  Forall (λ batch, (0 < length batch ≤ batch_size)%nat) (batches col) ∧
  length (batches col) = (length col + batch_size - 1) / batch_size.
Proof.
  destruct (batch_count_covers (length col)) as [Hcov Hlt].
  split; [apply concat_batches|]. unfold batches, batch_starts. split.
  - apply Forall_forall. intros b (i & -> & Hi)%list_elem_of_fmap.
    apply list_elem_of_fmap in Hi as (k & -> & Hk). apply elem_of_seq in Hk.
    pose proof (Hlt k ltac:(lia)). unfold iloc_slice.
    rewrite length_take, length_drop. lia.
  - by rewrite !length_fmap, length_seq.
Qed.

(** ** Runs of the pipeline, continued *)

Section MoreRuns.
Variable cuisine_clf : list string → option (list string).
Variable meal_clf : list string → option (list string).
Variable infer : list string → list float → option (list (list float)).
Variable classes_ : list Z.
Variable list_of_set : gset string → list string.
Variable sort_values : list candidate → list candidate.

Abbreviation corpus_filter' := (corpus_filter cuisine_clf meal_clf).
Abbreviation rank' := (rank infer classes_ sort_values).
Abbreviation recommend' :=
  (recommend cuisine_clf meal_clf infer classes_ list_of_set sort_values).
Abbreviation get_recommendations' :=
  (get_recommendations cuisine_clf meal_clf infer classes_ list_of_set sort_values).
Abbreviation raw_texts db := (ingredients_raw_text <$> (prepare <$> db)).
Abbreviation full_texts db := (full_text <$> (prepare <$> db)).

Lemma mapM_pointwise (clf : list string → option (list string)) (f : string → string)
    (bs : list (list string)) :
  (∀ batch, clf batch = Some (f <$> batch)) →
  mapM clf bs = Some ((λ batch : list string, f <$> batch) <$> bs).
Proof.
  intros H. induction bs as [|b bs IH]; [done|]. cbn. by rewrite H, IH.
Qed.

Lemma concat_fmap_fmap {X Y : Type} (f : X → Y) (ls : list (list X)) :
  concat ((λ l : list X, f <$> l) <$> ls) = f <$> concat ls.
Proof. induction ls as [|l ls IH]; [done|]. cbn. by rewrite IH, fmap_app. Qed.

Lemma assign_labels_fmap {X : Type} (g : X → row) (fc fm : X → string) (l : list X) :
  assign_labels (g <$> l) (fc <$> l) (fm <$> l) =
  Some ((λ x, {| l_row := g x; predicted_cuisine := fc x; predicted_meal_type := fm x |})
          <$> l).
Proof. induction l as [|x l IH]; [done|]. cbn. by rewrite IH. Qed.

(** X15.  For classifiers that label each text by itself the batches do not
    show: the filter keeps the recipes, in the order of the table, whose
    label for the raw-ingredient text is the wanted cuisine and whose label
    for the full text is the wanted category, up to case. *)
Theorem batching_is_transparent (db : list recipe) (prefs : preferences) log
    (fc fm : string → string) :
  (∀ batch, cuisine_clf batch = Some (fc <$> batch)) →
  (∀ batch, meal_clf batch = Some (fm <$> batch)) →
  corpus_filter' db prefs log =
    (Returned
       (filter (λ r, py_lower (predicted_cuisine r) = py_lower (cuisine prefs) ∧
                     py_lower (predicted_meal_type r) = selected_meal_type prefs)
          ((λ r, {| l_row := prepare r;
                    predicted_cuisine := fc (ingredients_raw_text (prepare r));
                    predicted_meal_type := fm (full_text (prepare r)) |}) <$> db)),
     log ++ (CuisinePredict <$> batches (raw_texts db))
         ++ (MealPredict <$> batches (full_texts db))).
Proof.
  intros Hc Hm. unfold corpus_filter, mbind, M_bind.
  rewrite (predict_loop_answers _ _ _ ((λ batch : list string, fc <$> batch) <$> batches (raw_texts db)))
    by (by apply mapM_pointwise).
  cbn [app]. rewrite concat_fmap_fmap, concat_batches.
  rewrite !length_fmap, Nat.eqb_refl. cbn [negb].
  rewrite (predict_loop_answers _ _ _ ((λ batch : list string, fm <$> batch) <$> batches (full_texts db)))
    by (by apply mapM_pointwise).
  cbn [app]. rewrite concat_fmap_fmap, concat_batches.
  rewrite <- !list_fmap_compose.
  rewrite (assign_labels_fmap prepare (fc ∘ ingredients_raw_text ∘ prepare)
             (fm ∘ full_text ∘ prepare)).
  unfold mret, M_ret. rewrite app_assoc. f_equal. f_equal.
  apply list_filter_iff. intros r. rewrite label_match_spec.
  by rewrite selected_meal_type_lower.
Qed.

Lemma corpus_filter_reads_targets db (prefs prefs' : preferences) log :
  selected_cuisine prefs = selected_cuisine prefs' →
  selected_meal_type prefs = selected_meal_type prefs' →
  corpus_filter' db prefs log = corpus_filter' db prefs' log.
Proof.
  intros Hc Hm. unfold corpus_filter, mbind, M_bind.
  destruct (predict_loop CuisinePredict _ _ _ _) as [[cs|] l1]; [|done].
  destruct (negb _); [done|].
  destruct (predict_loop MealPredict _ _ _ _) as [[ms|] l2]; [|done].
  destruct (assign_labels _ _ _) as [lr|]; [|done].
  unfold mret, M_ret. f_equal. f_equal. apply list_filter_iff. intros r.
  unfold label_match. by rewrite Hc, Hm.
Qed.

(** X16.  A run reads five things of the preferences and no more: the cuisine
    up to case, the category that the meal type maps to, the number of
    servings (4.0 when absent), and the two flags (false when absent).  Two
    runs that agree on these return the same result after the same oracle
    calls; the list under [prefs["ingredients"]] is never read. *)
Theorem get_recommendations_reads_five_things (db : list recipe)
    (prefs prefs' : preferences) :
  py_lower (cuisine prefs) = py_lower (cuisine prefs') →
  selected_meal_type prefs = selected_meal_type prefs' →
  default 4%float (servings prefs) = default 4%float (servings prefs') →
  flag (allow_substitutions prefs) = flag (allow_substitutions prefs') →
  flag (use_grocery prefs) = flag (use_grocery prefs') →
  get_recommendations' db prefs = get_recommendations' db prefs'.
Proof.
  intros Hc Hm Hs Ha Hg. unfold get_recommendations. rewrite !recommend_unfold. cbv zeta.
  rewrite (corpus_filter_reads_targets db (set_ingredients prefs SAMPLE_INGREDIENTS)
             (set_ingredients prefs' SAMPLE_INGREDIENTS)) by done.
  destruct (corpus_filter' _ _ []) as [[matching|] log1]; [|done].
  assert (score_rows list_of_set (set_ingredients prefs SAMPLE_INGREDIENTS) matching =
          score_rows list_of_set (set_ingredients prefs' SAMPLE_INGREDIENTS) matching)
    as Hscore.
  { unfold score_rows. cbn [allow_substitutions use_grocery set_ingredients].
    by rewrite Ha, Hg. }
  assert (∀ cands log,
            rank' (set_ingredients prefs SAMPLE_INGREDIENTS) cands log =
            rank' (set_ingredients prefs' SAMPLE_INGREDIENTS) cands log) as Hrank.
  { intros cands log. unfold rank. cbn [servings set_ingredients]. by rewrite Hs. }
  cbn [use_grocery set_ingredients]. rewrite Hscore, Hg.
  destruct (Nat.eqb (length matching) 0); [done|].
  destruct (negb _).
  - destruct (Nat.eqb _ 0); [done|]. by rewrite Hrank.
  - by rewrite Hrank.
Qed.

Lemma assign_labels_inv (rows : list row) cs ms lr :
  assign_labels rows cs ms = Some lr →
  l_row <$> lr = rows ∧ predicted_cuisine <$> lr = cs ∧ predicted_meal_type <$> lr = ms.
Proof.
  revert cs ms lr. induction rows as [|r rows IH]; intros [|c cs] [|m ms] lr; try done.
  - by intros [= <-].
  - cbn. destruct (assign_labels rows cs ms) as [rest|] eqn:E; [|done].
    intros [= <-]. destruct (IH _ _ _ E) as (H1 & H2 & H3). cbn. by rewrite H1, H2, H3.
Qed.

Lemma corpus_filter_Returned db prefs log matching log1 :
  corpus_filter' db prefs log = (Returned matching, log1) →
  ∃ lr, l_row <$> lr = prepare <$> db ∧
        matching = filter (λ r, label_match prefs r) lr.
Proof.
  unfold corpus_filter, mbind, M_bind.
  destruct (predict_loop CuisinePredict _ _ _ _) as [[cs|] l1]; [|done].
  destruct (negb _); [done|].
  destruct (predict_loop MealPredict _ _ _ _) as [[ms|] l2]; [|done].
  destruct (assign_labels _ _ _) as [lr|] eqn:E; [|done].
  intros [= <- <-]. exists lr. split; [|done]. by apply assign_labels_inv in E as [? _].
Qed.

Lemma rank_Returned prefs cands log res log' :
  rank' prefs cands log = (Returned res, log') →
  let X_text := (λ c, full_text (l_row (c_row c))) <$> cands in
  let X_servings := replicate (length cands) (default 4%float (servings prefs)) in
  ∃ predictions scored,
    infer X_text X_servings = Some predictions ∧
    assign_model_scores classes_ predictions (imap (λ i c, (i, c_id c)) cands) cands
      = Some scored ∧
    res = match sort_values scored with
          | [] => empty_result
          | top :: rest => (Some top, Some (take 10 rest))
          end ∧
    log' = log ++ [Infer X_text X_servings].
Proof.
  unfold rank, mbind, M_bind, invoke. cbv zeta.
  destruct (infer _ _) as [predictions|]; [|done].
  destruct (assign_model_scores _ _ _ _) as [scored|] eqn:E; [|done].
  intros H. exists predictions, scored. split; [done|]. split; [done|].
  destruct (sort_values scored) as [|top rest]; [by injection H as <- <-|].
  unfold iloc_slice in H. cbn in H. rewrite drop_0 in H. by injection H as <- <-.
Qed.

(** A run that names a top recipe went through the ranking. *)
Lemma run_with_top db prefs top others log :
  get_recommendations' db prefs = ((Some top, others), log) →
  let prefs' := set_ingredients prefs SAMPLE_INGREDIENTS in
  ∃ matching log1 cands,
    corpus_filter' db prefs' [] = (Returned matching, log1) ∧
    cands = (if negb (flag (use_grocery prefs))
             then positive_scores (score_rows list_of_set prefs' matching)
             else score_rows list_of_set prefs' matching) ∧
    rank' prefs' cands log1 = (Returned (Some top, others), log).
Proof.
  unfold get_recommendations. rewrite recommend_unfold. cbv zeta.
  destruct (corpus_filter' _ _ []) as [[matching|] log1] eqn:Ef; [|done].
  change (flag (use_grocery (set_ingredients prefs SAMPLE_INGREDIENTS)))
    with (flag (use_grocery prefs)).
  destruct (Nat.eqb (length matching) 0); [done|].
  destruct (negb (flag (use_grocery prefs))) eqn:Eg.
  - destruct (Nat.eqb _ 0); [done|].
    destruct (rank' _ _ log1) as [[res|] log2] eqn:Er; [|done].
    intros [= -> ->]. eexists matching, log1, _.
    split; [done|]. split; [reflexivity|exact Er].
  - destruct (rank' _ _ log1) as [[res|] log2] eqn:Er; [|done].
    intros [= -> ->]. eexists matching, log1, _.
    split; [done|]. split; [reflexivity|exact Er].
Qed.

(** What is known of every row that a run returns. *)
Lemma returned_rows db prefs top others log :
  (∀ l, sort_values l ≡ₚ l) →
  get_recommendations' db prefs = ((Some top, others), log) →
  ∃ rest, others = Some rest ∧ (length rest ≤ 10)%nat ∧
    ∀ c, c ∈ top :: rest →
      (∃ r, r ∈ db ∧ l_row (c_row c) = prepare r) ∧
      label_match prefs (c_row c) = true ∧
      ingredient_score c =
        ingredient_match_score SAMPLE_INGREDIENTS
          (effective_ingredients list_of_set (l_row (c_row c)))
          (flag (allow_substitutions prefs)) (flag (use_grocery prefs)) 0.2%float ∧
      (flag (use_grocery prefs) = false → (0 <? ingredient_score c)%float = true).
Proof.
  intros Hperm Hrun.
  destruct (run_with_top _ _ _ _ _ Hrun) as (matching & log1 & cands & Hf & Hc & Hr).
  apply corpus_filter_Returned in Hf as (lr & Hlr & Hm).
  apply rank_Returned in Hr as (predictions & scored & _ & Ha & Hres & _).
  apply assign_model_scores_length in Ha.
  destruct (sort_values scored) as [|top' rest'] eqn:Es; [done|].
  injection Hres as -> ->. exists (take 10 rest').
  split; [done|]. split; [rewrite length_take; lia|].
  intros c Hin.
  assert (c ∈ scored) as Hcs.
  { rewrite <- (Hperm scored), Es.
    apply elem_of_cons in Hin as [->|Hin]; [apply list_elem_of_here|].
    apply list_elem_of_further. eapply elem_of_sublist; [done|apply sublist_take]. }
  apply list_elem_of_lookup in Hcs as [p Hp].
  destruct (Forall2_lookup_r _ _ _ _ _ Ha Hp) as (c0 & Hc0 & Hrow & Hscore).
  rewrite Hrow, Hscore.
  assert (c0 ∈ cands) as Hc0' by (by eapply list_elem_of_lookup_2).
  assert (c0 ∈ score_rows list_of_set (set_ingredients prefs SAMPLE_INGREDIENTS) matching ∧
          (flag (use_grocery prefs) = false → (0 <? ingredient_score c0)%float = true))
    as [Hsr Hpos].
  { subst cands. destruct (flag (use_grocery prefs)); cbn [negb] in Hc0'.
    - split; [done|]. discriminate.
    - apply list_elem_of_filter in Hc0' as [? ?]. by split. }
  apply list_elem_of_fmap in Hsr as (r & -> & Hr). cbn.
  subst matching. apply list_elem_of_filter in Hr as [Hlm Hr].
  split; [|split; [|split]]; [|by apply Is_true_true in Hlm|done|done].
  assert (l_row r ∈ prepare <$> db) as Hin'.
  { rewrite <- Hlr. apply list_elem_of_fmap. eauto. }
  apply list_elem_of_fmap in Hin' as (r0 & E & Hr0). eauto.
Qed.

(** X17.  A run returns either [(None, None)] or a top row with a table of at
    most ten others. *)
Theorem result_is_empty_or_top_with_ten (db : list recipe) (prefs : preferences) :
  let r := (get_recommendations' db prefs).1 in
  r = empty_result ∨ ∃ top rest, r = (Some top, Some rest) ∧ (length rest ≤ 10)%nat.
Proof.
  cbv zeta. unfold get_recommendations. rewrite recommend_unfold. cbv zeta.
  assert (∀ p cands l,
            match rank' p cands l with
            | (Returned r, _) =>
                r = empty_result ∨
                ∃ top rest, r = (Some top, Some rest) ∧ (length rest ≤ 10)%nat
            | (Raised, _) => True
            end) as Hrank.
  { intros p cands l. destruct (rank' p cands l) as [[r|] l'] eqn:E; [|done].
    apply rank_Returned in E as (? & scored & _ & _ & -> & _).
    destruct (sort_values scored) as [|top rest]; [by left|].
    right. exists top, (take 10 rest). split; [done|]. rewrite length_take. lia. }
  destruct (corpus_filter' _ _ []) as [[matching|] log1]; [|by left].
  destruct (Nat.eqb (length matching) 0); [by left|].
  destruct (negb _).
  - destruct (Nat.eqb _ 0); [by left|].
    match goal with |- context [rank' ?p ?c ?l] =>
      specialize (Hrank p c l); destruct (rank' p c l) as [[r|] l'] end;
      [done|by left].
  - match goal with |- context [rank' ?p ?c ?l] =>
      specialize (Hrank p c l); destruct (rank' p c l) as [[r|] l'] end;
      [done|by left].
Qed.

(** X18.  Every row that a run returns is a recipe of the table, and its two
    predicted labels are the wanted cuisine and the wanted category, up to
    case. *)
Theorem returned_rows_match_the_request (db : list recipe) (prefs : preferences)
    top others log :
  (∀ l, sort_values l ≡ₚ l) →
  get_recommendations' db prefs = ((Some top, others), log) →
  ∃ rest, others = Some rest ∧
    ∀ c, c ∈ top :: rest →
      (∃ r, r ∈ db ∧ l_row (c_row c) = prepare r) ∧
      py_lower (predicted_cuisine (c_row c)) = py_lower (cuisine prefs) ∧
      py_lower (predicted_meal_type (c_row c)) = selected_meal_type prefs.
Proof.
  intros Hperm Hrun.
  destruct (returned_rows _ _ _ _ _ Hperm Hrun) as (rest & -> & _ & H).
  exists rest. split; [done|]. intros c Hc.
  destruct (H c Hc) as (Hdb & Hlm & _). split; [done|].
  apply Is_true_true, label_match_spec in Hlm.
  by rewrite selected_meal_type_lower in Hlm.
Qed.

(** X19.  Every row that a run returns was scored against the sample list, with
    the flags of the preferences; and when the user will not buy more, its
    ingredient score is exactly 1.0. *)
Theorem returned_rows_scores (db : list recipe) (prefs : preferences) top others log :
  (∀ l, sort_values l ≡ₚ l) →
  get_recommendations' db prefs = ((Some top, others), log) →
  ∃ rest, others = Some rest ∧
    ∀ c, c ∈ top :: rest →
      ingredient_score c =
        ingredient_match_score SAMPLE_INGREDIENTS
          (effective_ingredients list_of_set (l_row (c_row c)))
          (flag (allow_substitutions prefs)) (flag (use_grocery prefs)) 0.2%float ∧
      (flag (use_grocery prefs) = false →
         ingredient_score c = 1%float ∧
         final_score c = (1 * 0.95 + model_score c * 0.05)%float).
Proof.
  intros Hperm Hrun.
  destruct (returned_rows _ _ _ _ _ Hperm Hrun) as (rest & -> & _ & H).
  exists rest. split; [done|]. intros c Hc.
  destruct (H c Hc) as (_ & _ & Hs & Hpos). split; [done|].
  intros Hg. specialize (Hpos Hg). rewrite Hg in Hs.
  assert (ingredient_score c = 1%float) as E.
  { rewrite Hs in Hpos |- *.
    destruct (strict_score_cases SAMPLE_INGREDIENTS
                (effective_ingredients list_of_set (l_row (c_row c)))
                (flag (allow_substitutions prefs)) 0.2%float) as [E|E]; [|done].
    rewrite E in Hpos. discriminate. }
  split; [done|]. unfold final_score. by rewrite E.
Qed.
End MoreRuns.

(** ** The model scores, and answers of the wrong shape *)

Section Ranking.
Variable cuisine_clf : list string → option (list string).
Variable meal_clf : list string → option (list string).
Variable infer : list string → list float → option (list (list float)).
Variable classes_ : list Z.
Variable list_of_set : gset string → list string.
Variable sort_values : list candidate → list candidate.

Abbreviation corpus_filter' := (corpus_filter cuisine_clf meal_clf).
Abbreviation rank' := (rank infer classes_ sort_values).
Abbreviation recommend' :=
  (recommend cuisine_clf meal_clf infer classes_ list_of_set sort_values).
Abbreviation get_recommendations' :=
  (get_recommendations cuisine_clf meal_clf infer classes_ list_of_set sort_values).
Abbreviation raw_texts db := (ingredients_raw_text <$> (prepare <$> db)).
Abbreviation full_texts db := (full_text <$> (prepare <$> db)).
Abbreviation entry predictions i j :=
  (predictions !! i ≫= (λ line : list float, line !! j)).

(** The loop over the ids, for any list of positions and ids: a row whose id
    is no class keeps its model score, and so does a row whose id the loop
    does not meet; a row whose id the loop meets takes the entry of the last
    position with that id. *)
Lemma assign_model_scores_spec predictions (ids : list (nat * Z))
    (cands scored : list candidate) :
  assign_model_scores classes_ predictions ids cands = Some scored →
  ∀ p c, cands !! p = Some c →
    ∃ d, scored !! p = Some d ∧ c_id d = c_id c ∧
      match index_of (c_id c) classes_ with
      | None => model_score d = model_score c
      | Some j =>
          (c_id c ∉ ids.*2 → model_score d = model_score c) ∧
          (∀ l1 q l2, ids = l1 ++ (q, c_id c) :: l2 → c_id c ∉ l2.*2 →
             entry predictions q j = Some (model_score d))
      end.
Proof.
  revert cands. induction ids as [|[i rid] ids IH]; intros cands Hrun p c Hc.
  - cbn in Hrun. injection Hrun as <-. exists c. split; [done|]. split; [done|].
    destruct (index_of _ _); [|done]. split; [done|].
    intros [|? l1] q l2 H; discriminate H.
  - cbn [assign_model_scores] in Hrun.
    destruct (index_of rid classes_) as [j0|] eqn:Erid.
    + destruct (entry predictions i j0) as [v|] eqn:Ev; [|done].
      set (upd := λ c : candidate,
             if bool_decide (c_id c = rid) then set_model_score v c else c) in *.
      assert ((upd <$> cands) !! p = Some (upd c)) as Hc'
        by (by rewrite list_lookup_fmap, Hc).
      assert (c_id (upd c) = c_id c) as Hid by (unfold upd; by case_bool_decide).
      destruct (IH _ Hrun p (upd c) Hc') as (d & Hd & Hdid & Hm).
      exists d. split; [done|]. split; [congruence|].
      rewrite Hid in Hm. destruct (index_of (c_id c) classes_) as [j|] eqn:Ej.
      * destruct Hm as [Ha Hb]. split.
        -- cbn [fmap list_fmap snd]. rewrite not_elem_of_cons. intros [Hne Hni].
           rewrite (Ha Hni). unfold upd. by rewrite bool_decide_eq_false_2.
        -- intros [|[i' rid'] l1] q l2 H Hl2.
           ++ cbn in H. injection H as -> -> <-.
              rewrite (Ha Hl2). unfold upd. rewrite bool_decide_eq_true_2 by done.
              cbn. rewrite Erid in Ej. injection Ej as <-. exact Ev.
           ++ cbn in H. injection H as -> -> ->. by apply (Hb l1 q l2).
      * rewrite Hm. unfold upd. rewrite bool_decide_eq_false_2; [done|]. congruence.
    + destruct (IH _ Hrun p c Hc) as (d & Hd & Hdid & Hm).
      exists d. split; [done|]. split; [done|].
      destruct (index_of (c_id c) classes_) as [j|] eqn:Ej; [|done].
      destruct Hm as [Ha Hb]. split.
      * cbn [fmap list_fmap snd]. rewrite not_elem_of_cons. intros [_ Hni]. by apply Ha.
      * intros [|[i' rid'] l1] q l2 H Hl2.
        -- cbn in H. injection H as -> -> <-. congruence.
        -- cbn in H. injection H as -> -> ->. by apply (Hb l1 q l2).
Qed.

Lemma imap_ids_split (cands : list candidate) (q : nat) (c : candidate) :
  cands !! q = Some c →
  imap (λ i c, (i, c_id c)) cands =
  imap (λ i c, (i, c_id c)) (take q cands) ++ (q, c_id c) ::
  imap (λ i c, (S q + i, c_id c)) (drop (S q) cands).
Proof.
  intros Hq. rewrite <- (take_drop_middle cands q c Hq) at 1.
  rewrite imap_app. f_equal. cbn [imap].
  assert (length (take q cands) = q) as ->.
  { rewrite length_take. apply lookup_lt_Some in Hq. lia. }
  rewrite Nat.add_0_r. f_equal. apply imap_ext. intros i x _. cbn. f_equal. lia.
Qed.

(** X20.  The model scores are copied by recipe id.  A row whose id is no class
    of the encoder keeps the score it had (0 for a row fresh from the
    scoring step); a row whose id is a class takes the prediction made for
    the last row of the table with that id, in the column of the class, so
    rows with one id end with one score.  The rows, their order and their
    ingredient scores stay. *)
Theorem model_scores_go_by_recipe_id predictions (cands scored : list candidate) :
  assign_model_scores classes_ predictions (imap (λ i c, (i, c_id c)) cands) cands
    = Some scored →
  ∀ p c, cands !! p = Some c →
    ∃ d, scored !! p = Some d ∧ c_row d = c_row c ∧
      ingredient_score d = ingredient_score c ∧
      match index_of (c_id c) classes_ with
      | None => model_score d = model_score c
      | Some j =>
          ∀ q c', cands !! q = Some c' → c_id c' = c_id c →
            (∀ q' c'', (q < q')%nat → cands !! q' = Some c'' → c_id c'' ≠ c_id c) →
            entry predictions q j = Some (model_score d)
      end.
Proof.
  intros Hrun p c Hc.
  destruct (assign_model_scores_spec _ _ _ _ Hrun p c Hc) as (d & Hd & _ & Hm).
  pose proof (assign_model_scores_length _ _ _ _ _ Hrun) as Hrows.
  destruct (Forall2_lookup_lr _ _ _ _ _ _ Hrows Hc Hd) as [Hrow Hscore].
  exists d. split; [done|]. split; [done|]. split; [done|].
  destruct (index_of (c_id c) classes_) as [j|]; [|done].
  destruct Hm as [_ Hb]. intros q c' Hq Hid Hlast.
  apply (Hb _ q _ (eq_trans (imap_ids_split cands q c' Hq) ltac:(by rewrite Hid))).
  intros Hin. apply list_elem_of_fmap in Hin as ([i rid] & E & Hin). cbn in E. subst rid.
  apply list_elem_of_lookup in Hin as [k Hk]. rewrite list_lookup_imap in Hk.
  destruct (drop (S q) cands !! k) as [c''|] eqn:Ek; [|done]. cbn in Hk.
  injection Hk as <- Hk. rewrite lookup_drop in Ek.
  by apply (Hlast (S q + k)%nat c''); [lia| |].
Qed.

Lemma assign_model_scores_None predictions (ids : list (nat * Z)) (cands : list candidate)
    (i : nat) (rid : Z) (j : nat) :
  (i, rid) ∈ ids → index_of rid classes_ = Some j → entry predictions i j = None →
  assign_model_scores classes_ predictions ids cands = None.
Proof.
  intros Hin Hj Hnone. revert cands.
  induction ids as [|[i' rid'] ids IH]; intros cands; [by apply elem_of_nil in Hin|].
  cbn [assign_model_scores]. apply elem_of_cons in Hin as [[= <- <-]|Hin].
  - by rewrite Hj, Hnone.
  - destruct (index_of rid' classes_); [|by apply IH].
    destruct (entry predictions i' _); [by apply IH|done].
Qed.

(** X21.  Predictions that lack the entry for a row (too few lines, or a line
    too short for the column of the row's class) make the ranking raise,
    after the one call to the ranking oracle; the run then ends with
    [(None, None)] like every run that raises. *)
Theorem short_predictions_raise (prefs : preferences) (cands : list candidate) log
    predictions (p : nat) (c : candidate) (j : nat) :
  let X_text := (λ c, full_text (l_row (c_row c))) <$> cands in
  let X_servings := replicate (length cands) (default 4%float (servings prefs)) in
  infer X_text X_servings = Some predictions →
  cands !! p = Some c → index_of (c_id c) classes_ = Some j →
  entry predictions p j = None →
  rank' prefs cands log = (Raised, log ++ [Infer X_text X_servings]).
Proof.
  intros X_text X_servings Hinfer Hc Hj Hnone.
  unfold rank, mbind, M_bind, invoke. fold X_text X_servings. rewrite Hinfer.
  rewrite (assign_model_scores_None predictions _ cands p (c_id c) j); [done| |done..].
  apply list_elem_of_lookup. exists p. by rewrite list_lookup_imap, Hc.
Qed.

(** X22.  When the cuisine classifier answers every batch but with a number of
    labels that is not the number of recipes, the column cannot be assigned:
    the run ends with [(None, None)], and the meal-type classifier and the
    ranking oracle are not called. *)
Theorem wrong_label_count_gives_empty_result (db : list recipe) (prefs : preferences) cs :
  mapM cuisine_clf (batches (raw_texts db)) = Some cs →
  length (concat cs) ≠ length db →
  get_recommendations' db prefs =
    (empty_result, CuisinePredict <$> batches (raw_texts db)).
Proof.
  intros Hcs Hlen. unfold get_recommendations, recommend, corpus_filter, mbind, M_bind.
  rewrite (predict_loop_answers _ _ _ cs) by done. cbn [app].
  rewrite length_fmap. rewrite (proj2 (Nat.eqb_neq _ _) Hlen). done.
Qed.

Lemma elem_of_concat {X : Type} (x : X) (ls : list (list X)) :
  x ∈ concat ls ↔ ∃ l, x ∈ l ∧ l ∈ ls.
Proof.
  induction ls as [|l ls IH]; cbn.
  - rewrite elem_of_nil. split; [done|]. intros (l & _ & H). by apply elem_of_nil in H.
  - rewrite elem_of_app, IH. split.
    + intros [H|(l' & H & H')]; [exists l|exists l']; rewrite elem_of_cons; auto.
    + intros (l' & H & [->|H']%elem_of_cons); eauto.
Qed.

(** What a prediction loop has recorded when it ends, and where the labels
    it returns come from. *)
Lemma predict_loop_run (mk : list string → call) clf bs out log :
  ∃ asked answers,
    asked `prefix_of` bs ∧
    (predict_loop mk clf bs out log).2 = log ++ (mk <$> asked) ∧
    Forall (λ labels, ∃ batch, clf batch = Some labels) answers ∧
    match (predict_loop mk clf bs out log).1 with
    | Returned out' => asked = bs ∧ out' = out ++ concat answers
    | Raised => True
    end.
Proof.
  revert out log. induction bs as [|b bs IH]; intros out log.
  - exists [], []. cbn. by rewrite !app_nil_r.
  - cbn [predict_loop]. unfold mbind, M_bind, invoke.
    destruct (clf b) as [labels|] eqn:Eb.
    + destruct (IH (out ++ labels) (log ++ [mk b])) as (asked & answers & Hp & Hl & Hm & Hr).
      exists (b :: asked), (labels :: answers).
      split; [by apply prefix_cons|]. split; [by rewrite Hl, <- app_assoc|].
      split; [constructor; eauto|].
      destruct (predict_loop mk clf bs _ _).1 as [out'|]; [|done].
      destruct Hr as (-> & ->). cbn. by rewrite <- app_assoc.
    + exists [b], []. cbn. split; [|done]. apply prefix_cons, prefix_nil.
Qed.

Lemma corpus_filter_run db prefs :
  let res := corpus_filter' db prefs [] in
  (∃ bs, bs `prefix_of` batches (raw_texts db) ∧ res.2 = CuisinePredict <$> bs ∧
         ∀ x, res.1 ≠ Returned x) ∨
  (∃ bs ms, bs `prefix_of` batches (full_texts db) ∧
     res.2 = (CuisinePredict <$> batches (raw_texts db)) ++ (MealPredict <$> bs) ∧
     Forall (λ labels, ∃ batch, meal_clf batch = Some labels) ms ∧
     ∀ x, res.1 = Returned x →
       bs = batches (full_texts db) ∧
       ∃ lr, l_row <$> lr = prepare <$> db ∧
             predicted_meal_type <$> lr = concat ms ∧
             x = filter (λ r, label_match prefs r) lr).
Proof.
  cbv zeta. unfold corpus_filter, mbind, M_bind.
  destruct (predict_loop_run CuisinePredict cuisine_clf (batches (raw_texts db)) [] [])
    as (asked1 & ans1 & Hp1 & Hl1 & _ & Hr1).
  destruct (predict_loop CuisinePredict _ _ _ _) as [[cs|] l1]; cbn [fst snd] in *;
    [|left; exists asked1; by rewrite Hl1].
  destruct Hr1 as (-> & _). subst l1. cbn [app].
  destruct (negb _); [left; by exists (batches (raw_texts db))|].
  destruct (predict_loop_run MealPredict meal_clf (batches (full_texts db)) []
              (CuisinePredict <$> batches (raw_texts db)))
    as (asked2 & ans2 & Hp2 & Hl2 & Hm2 & Hr2).
  right. exists asked2, ans2.
  destruct (predict_loop MealPredict _ _ _ _) as [[ms|] l2]; cbn [fst snd] in *;
    [|by rewrite Hl2].
  destruct Hr2 as (-> & ->). subst l2. split; [done|].
  destruct (assign_labels _ _ _) as [lr|] eqn:E; cbn; [|done].
  split; [done|]. split; [done|]. intros x [= <-]. split; [done|].
  apply assign_labels_inv in E as (? & _ & ?). by exists lr.
Qed.

(** X23.  With a meal type that is none of the four of the interface the
    wanted category is "unknown"; unless the meal-type classifier gives that
    label, no recipe passes the filter: the run returns [(None, None)]
    without a call to the ranking oracle. *)
Theorem unknown_meal_type_finds_nothing (db : list recipe) (prefs : preferences) :
  meal_type prefs ∉ ["Breakfast"; "Full Meal"; "Sweet Treat"; "Snack"] →
  (∀ batch labels l, meal_clf batch = Some labels → l ∈ labels →
     py_lower l ≠ "unknown") →
  (get_recommendations' db prefs).1 = empty_result ∧
  Forall (λ c, is_infer c = false) (get_recommendations' db prefs).2.
Proof.
  intros Hkey Hlab.
  assert (selected_meal_type (set_ingredients prefs SAMPLE_INGREDIENTS) = "unknown") as Hsel.
  { unfold selected_meal_type. cbn [meal_type set_ingredients].
    unfold USER_TO_CATEGORY. rewrite not_elem_of_list_to_map_1; [done|exact Hkey]. }
  unfold get_recommendations. rewrite recommend_unfold. cbv zeta.
  pose proof (emits_corpus_filter cuisine_clf meal_clf infer db
                (set_ingredients prefs SAMPLE_INGREDIENTS) []) as (new & Hnew & Hall & _).
  destruct (corpus_filter_run db (set_ingredients prefs SAMPLE_INGREDIENTS))
    as [(bs & _ & _ & Hno)|(bs & ms & _ & _ & Hms & Hret)]; cbv zeta in *.
  - destruct (corpus_filter' _ _ []) as [[matching|] log1]; [by destruct (Hno matching)|].
    cbn in Hnew. by subst.
  - destruct (corpus_filter' _ _ []) as [[matching|] log1]; cbn in Hnew; subst log1;
      [|done].
    destruct (Hret matching eq_refl) as (_ & lr & _ & Hmeal & ->).
    assert (filter (λ r, label_match (set_ingredients prefs SAMPLE_INGREDIENTS) r) lr = [])
      as ->; [|done].
    destruct (filter _ lr) as [|r l] eqn:E; [done|].
    assert (r ∈ r :: l) as Hin by apply list_elem_of_here.
    rewrite <- E in Hin. apply list_elem_of_filter in Hin as [Hlm Hr].
    apply label_match_spec in Hlm as [_ Hlm].
    rewrite selected_meal_type_lower, Hsel in Hlm.
    assert (predicted_meal_type r ∈ concat ms) as Hc
      by (rewrite <- Hmeal; apply list_elem_of_fmap; eauto).
    apply elem_of_concat in Hc as (labels & Hl & Hls).
    rewrite Forall_forall in Hms. destruct (Hms labels Hls) as [batch Hb].
    by destruct (Hlab batch labels _ Hb Hl).
Qed.

End Ranking.

(** ** Exact results in binary64 *)

Section Exact64.
Local Open Scope Z_scope.

Abbreviation digits := Zdigits2.
Abbreviation fexp64 := (fexp prec emax).

Lemma iter_pos_nat {X : Type} (f : X → X) (p : positive) (x : X) :
  SpecFloat.iter_pos f p x = Nat.iter (Pos.to_nat p) f x.
Proof.
  revert x. induction p as [p IH|p IH|]; intros x; cbn [SpecFloat.iter_pos].
  - rewrite !IH, Pos2Nat.inj_xI.
    replace (S (2 * Pos.to_nat p)) with (Pos.to_nat p + Pos.to_nat p + 1)%nat by lia.
    by rewrite !Nat.iter_add.
  - rewrite !IH, Pos2Nat.inj_xO.
    replace (2 * Pos.to_nat p)%nat with (Pos.to_nat p + Pos.to_nat p)%nat by lia.
    by rewrite Nat.iter_add.
  - done.
Qed.

Lemma shr_1_even (m : Z) :
  0 ≤ m →
  shr_1 {| shr_m := 2 * m; shr_r := false; shr_s := false |} =
  {| shr_m := m; shr_r := false; shr_s := false |}.
Proof. by destruct m as [|p|p]. Qed.

Lemma iter_shr_1_exact (n : nat) (m : Z) :
  0 ≤ m →
  Nat.iter n shr_1 {| shr_m := m * 2 ^ Z.of_nat n; shr_r := false; shr_s := false |} =
  {| shr_m := m; shr_r := false; shr_s := false |}.
Proof.
  intros Hm. revert m Hm. induction n as [|n IH]; intros m Hm.
  - cbn. by rewrite Z.mul_1_r.
  - rewrite Nat.iter_succ_r.
    replace (m * 2 ^ Z.of_nat (S n)) with (2 * (m * 2 ^ Z.of_nat n))
      by (rewrite Nat2Z.inj_succ, Z.pow_succ_r by lia; lia).
    rewrite shr_1_even by (apply Z.mul_nonneg_nonneg; [done|apply Z.pow_nonneg; lia]).
    by apply IH.
Qed.

(** A mantissa that ends in as many zeros as must be shifted out is rounded
    to itself. *)
Lemma binary_round_aux_exact (m' : positive) (e s : Z) :
  0 ≤ s → fexp64 (digits (Zpos m' * 2 ^ s) + e) = e + s → e + s ≤ 971 →
  binary_round_aux prec emax false (Zpos m' * 2 ^ s) e loc_Exact =
  S754_finite false m' (e + s).
Proof.
  intros Hs Hf Hmax. unfold binary_round_aux, shr_fexp at 1. rewrite Hf.
  replace (e + s - e) with s by lia. unfold shr_record_of_loc.
  assert (shr {| shr_m := Zpos m' * 2 ^ s; shr_r := false; shr_s := false |} e s =
          ({| shr_m := Zpos m'; shr_r := false; shr_s := false |}, e + s)) as ->.
  { unfold shr. destruct s as [|p|p]; [|  |lia].
    - by rewrite Z.pow_0_r, Z.mul_1_r, Z.add_0_r.
    - rewrite iter_pos_nat. rewrite <- (positive_nat_Z p) at 1.
      by rewrite iter_shr_1_exact. }
  cbn [shr_m loc_of_shr_record round_nearest_even].
  unfold shr_fexp. rewrite digits_mul_pow2 in Hf by lia.
  replace (digits (Zpos m') + (e + s)) with (digits (Zpos m') + s + e) by lia.
  rewrite Hf, Z.sub_diag. cbn [shr shr_record_of_loc shr_m].
  by rewrite (proj2 (Z.leb_le _ _)) by (unfold emax, prec; lia).
Qed.

Lemma SF_whole_unique (v : Z) (x y : spec_float) : SF_whole v x → SF_whole v y → x = y.
Proof.
  intros Hx Hy.
  destruct x as [sx| | |sx mx ex]; try done; destruct y as [sy| | |sy my ey]; try done;
    cbn [SF_whole] in Hx, Hy.
  - destruct Hx as [-> _], Hy as [-> _]. done.
  - destruct sy; [done|]. destruct Hx as [_ ->], Hy as (_ & _ & H). lia.
  - destruct sx; [done|]. destruct Hy as [_ ->], Hx as (_ & _ & H). lia.
  - destruct sx, sy; try done.
    destruct Hx as (Hex & Hdx & Hx), Hy as (Hey & Hdy & Hy).
    assert (0 < v) as Hv by (pose proof (Z.pow_pos_nonneg 2 (- ex)); nia).
    assert (digits (v * 2 ^ (- ex)) = digits (v * 2 ^ (- ey))) as Hd by congruence.
    rewrite !digits_mul_pow2 in Hd by lia.
    assert (ex = ey) as -> by lia. f_equal. lia.
Qed.

Lemma SF_whole_normalize (k : Z) :
  0 ≤ k < 2 ^ 53 → SF_whole k (binary_normalize prec emax k 0 false).
Proof.
  intros [Hk0 Hk]. destruct k as [|v|v]; [done| |lia]. cbn [binary_normalize].
  unfold binary_round.
  set (d := digits (Zpos v)).
  assert (1 ≤ d ≤ 53) as Hd.
  { split; [pose proof (digits_pos (Zpos v)); lia|by apply digits_lt_pow2]. }
  change (Zpos (digits2_pos v)) with d. rewrite Z.add_0_r.
  assert (fexp64 d = d - 53) as Hf by (rewrite fexp64_eq; lia). rewrite Hf.
  destruct (shl_align_spec v 0 (d - 53)) as [H2 H1].
  destruct (shl_align v 0 (d - 53)) as [mz ez]. cbn [fst snd] in H1, H2.
  rewrite Z.min_r in H1, H2 by lia. subst ez.
  replace (0 - (d - 53)) with (53 - d) in H1 by lia.
  assert (digits (Zpos mz) = 53) as Hdz by (rewrite H1, digits_mul_pow2 by lia; lia).
  pose proof (binary_round_aux_exact mz (d - 53) 0 ltac:(lia)) as Hr.
  rewrite Z.pow_0_r, Z.mul_1_r, Z.add_0_r in Hr. rewrite Hr.
  - cbn [SF_whole]. split; [lia|]. split; [done|]. rewrite H1. f_equal. f_equal. lia.
  - rewrite Hdz, fexp64_eq. lia.
  - lia.
Qed.

Lemma SF_whole_succ (k : Z) (x : spec_float) :
  SF_whole k x → 0 ≤ k → k + 1 < 2 ^ 53 →
  SF_whole (k + 1) (SFadd prec emax x SF_one).
Proof.
  destruct x as [s| | |s m e]; try done; cbn [SF_whole].
  - intros [-> ->] _ _. cbn. lia.
  - destruct s; [done|]. intros (He & Hdm & Hm) Hk0 Hk.
    assert (0 < k) as Hkpos by (pose proof (Z.pow_pos_nonneg 2 (- e)); nia).
    assert (digits k - e = 53) as Hdk by (rewrite Hm, digits_mul_pow2 in Hdm by lia; lia).
    pose proof (digits_pos k Hkpos) as Hdk1.
    unfold SF_one. cbn [SFadd cond_Zopp].
    rewrite (Z.min_r e (-52)) by lia.
    destruct (shl_align_spec m e (-52)) as [_ H1].
    destruct (shl_align_spec 4503599627370496 (-52) (-52)) as [_ H2].
    rewrite Z.min_r in H1 by lia. rewrite Z.min_r in H2 by lia.
    rewrite H1, H2, Hm. change (-52 - -52) with 0. rewrite Z.pow_0_r, Z.mul_1_r.
    assert (k * 2 ^ (- e) * 2 ^ (e - -52) + 4503599627370496 = (k + 1) * 2 ^ 52) as ->.
    { rewrite <- Z.mul_assoc, <- Z.pow_add_r by lia.
      replace (- e + (e - -52)) with 52 by lia. change (2 ^ 52) with 4503599627370496. lia. }
    set (d := digits (k + 1)).
    assert (1 ≤ d ≤ 53) as Hd.
    { split; [pose proof (digits_pos (k + 1)); lia|apply digits_lt_pow2; lia]. }
    destruct ((k + 1) * 2 ^ 52) as [|p|p] eqn:Ep; [lia| |lia].
    cbn [binary_normalize]. unfold binary_round.
    assert (digits (Zpos p) = d + 52) as Hdp
      by (rewrite <- Ep; apply digits_mul_pow2; lia).
    change (Zpos (digits2_pos p)) with (digits (Zpos p)). rewrite Hdp.
    replace (d + 52 + -52) with d by lia.
    assert (fexp64 d = d - 53) as Hf by (rewrite fexp64_eq; lia). rewrite Hf.
    destruct (shl_align_spec p (-52) (d - 53)) as [H4 H3].
    destruct (shl_align p (-52) (d - 53)) as [mz ez]. cbn [fst snd] in H3, H4.
    rewrite Z.min_l in H3, H4 by lia. subst ez.
    rewrite Z.sub_diag, Z.pow_0_r, Z.mul_1_r in H3. rewrite H3.
    set (M := (k + 1) * 2 ^ (53 - d)).
    assert (0 < M) as HM by (apply Z.mul_pos_pos; [lia|apply Z.pow_pos_nonneg; lia]).
    assert (Zpos p = Zpos (Z.to_pos M) * 2 ^ (d - 1)) as ->.
    { rewrite Z2Pos.id by done. rewrite <- Ep. unfold M.
      rewrite <- Z.mul_assoc, <- Z.pow_add_r by lia. f_equal. f_equal. lia. }
    rewrite binary_round_aux_exact.
    + cbn [SF_whole]. rewrite Z2Pos.id by done. split; [lia|]. split.
      * unfold M. rewrite digits_mul_pow2 by lia. fold d. lia.
      * unfold M. f_equal. f_equal. lia.
    + lia.
    + rewrite digits_mul_pow2, Z2Pos.id by lia. unfold M.
      rewrite digits_mul_pow2 by lia. fold d. rewrite fexp64_eq. lia.
    + lia.
Qed.

Lemma div_eucl_mul (m : positive) (s : Z) :
  0 ≤ s → Z.div_eucl (Zpos m * 2 ^ s) (Zpos m) = (2 ^ s, 0).
Proof.
  intros Hs.
  pose proof (Z_div_mod (Zpos m * 2 ^ s) (Zpos m) ltac:(lia)) as H.
  destruct (Z.div_eucl _ _) as [q r]. destruct H as [H1 H2].
  assert (q = 2 ^ s) by nia. subst q. f_equal. lia.
Qed.

(** A positive finite float divided by itself is 1.0. *)
Lemma SFdiv_self (m : positive) (e : Z) :
  SFdiv prec emax (S754_finite false m e) (S754_finite false m e) = SF_one.
Proof.
  cbn [SFdiv xorb]. unfold SFdiv_core_binary.
  replace (digits (Zpos m) + e - (digits (Zpos m) + e)) with 0 by lia.
  rewrite Z.sub_diag. change (Z.min (fexp64 0) 0) with (-53).
  change (0 - -53) with 53. cbv zeta. rewrite Z.shiftl_mul_pow2 by lia.
  rewrite div_eucl_mul by lia.
  assert (new_location (Zpos m) 0 = loc_Exact) as ->.
  { unfold new_location, new_location_even, new_location_odd. by destruct (Z.even _). }
  by vm_compute.
Qed.

Lemma pos_mag_weaken (lo lo' hi hi' : Z) (x : spec_float) :
  lo' ≤ lo → hi ≤ hi' → pos_mag lo hi x → pos_mag lo' hi' x.
Proof. destruct x as [| | |[] m e]; cbn; try done. lia. Qed.

(** A float that is at least 1.0 and not above 1.0 is 1.0. *)
Lemma at_least_one_not_above (x : float) (hi : Z) :
  pos_mag 1 hi (Prim2SF x) → (1 <? x)%float = false → x = 1%float.
Proof.
  intros Hx Hlt. apply Prim2SF_inj. rewrite FloatAxioms.ltb_spec in Hlt.
  pose proof (Prim2SF_valid x) as Hv.
  change (Prim2SF 1) with SF_one in *.
  destruct (Prim2SF x) as [| | |[] m e]; try done. cbn [pos_mag] in Hx.
  unfold SpecFloat.valid_binary, bounded, canonical_mantissa in Hv.
  apply andb_true_iff in Hv as [Hc _]. apply Z.eqb_eq in Hc.
  change (Zpos (digits2_pos m)) with (digits (Zpos m)) in Hc.
  rewrite fexp64_eq in Hc.
  unfold SFltb, SF_one in Hlt. cbn [SFcompare] in Hlt.
  destruct (Z.compare_spec (-52) e) as [<-|Hlt'|Hgt]; [| done |lia].
  assert (digits (Zpos m) = 53) as Hd by lia.
  change (PosDef.Pos.compare_cont Eq 4503599627370496 m)
    with (Pos.compare 4503599627370496 m) in Hlt.
  pose proof (digits_bounds (Zpos m) (Pos2Z.is_pos m)) as [Hlo _]. rewrite Hd in Hlo.
  change (2 ^ (53 - 1)) with 4503599627370496 in Hlo.
  destruct (Pos.compare_spec 4503599627370496 m) as [<-|E|E];
    [reflexivity|discriminate Hlt|].
  apply Pos2Z.pos_lt_pos in E. clear -E Hlo.
  apply Z.le_ngt in Hlo. by destruct Hlo.
Qed.

Lemma of_len_whole (k : nat) :
  Z.of_nat k < 2 ^ 53 → SF_whole (Z.of_nat k) (Prim2SF (of_len k)).
Proof.
  intros Hk. rewrite of_len_spec by (change (2 ^ 63) with (2 ^ 53 * 1024); lia).
  apply SF_whole_normalize. lia.
Qed.

Lemma fold_direct_whole aug sa (l : list string) (acc : float) (k : Z) :
  (∀ r, r ∈ l → normalize r ∈ aug) →
  0 ≤ k → k + Z.of_nat (length l) < 2 ^ 53 →
  SF_whole k (Prim2SF acc) →
  SF_whole (k + Z.of_nat (length l)) (Prim2SF (fold_left (match_step aug sa) l acc)).
Proof.
  revert acc k. induction l as [|i l IH]; intros acc k Hall Hk Hlt Hacc.
  - cbn. by rewrite Z.add_0_r.
  - cbn [fold_left length] in *. rewrite Nat2Z.inj_succ in *.
    rewrite match_step_direct by (apply Hall, list_elem_of_here).
    replace (k + Z.succ (Z.of_nat (length l))) with (k + 1 + Z.of_nat (length l)) by lia.
    apply IH; [|lia|lia|].
    + intros r Hr. by apply Hall, list_elem_of_further.
    + rewrite FloatAxioms.add_spec. change (Prim2SF 1) with SF_one.
      apply SF_whole_succ; [done|lia|lia].
Qed.

Lemma fold_no_match aug sa (l : list string) (acc : float) :
  (∀ r, r ∈ l →
     (normalize r ∉ aug) ∧
     (sa = false ∨ SUBSTITUTIONS !! normalize r = None ∨
      ∃ subs, SUBSTITUTIONS !! normalize r = Some subs ∧
              ∀ s, s ∈ subs → normalize s ∉ aug)) →
  fold_left (match_step aug sa) l acc = acc.
Proof.
  revert acc. induction l as [|i l IH]; intros acc Hall; [done|].
  cbn [fold_left]. destruct (Hall i (list_elem_of_here _ _)) as [Hn Hc].
  rewrite match_step_none by done. apply IH.
  intros r Hr. by apply Hall, list_elem_of_further.
Qed.

Lemma mul_one_pos_mag (y : float) (lo hi : Z) :
  pos_mag lo hi (Prim2SF y) → -1021 ≤ lo → hi ≤ 971 →
  pos_mag lo (hi + 1) (Prim2SF (1 * y)).
Proof.
  intros Hy Hlo Hhi. rewrite FloatAxioms.mul_spec. change (Prim2SF 1) with SF_one.
  destruct (Prim2SF y) as [| | |[] my ey]; try done. cbn [pos_mag] in Hy.
  unfold SF_one. cbn [SFmul xorb].
  assert (digits (Zpos (4503599627370496 * my)) = digits (Zpos my) + 52) as Hd.
  { rewrite Pos2Z.inj_mul, Z.mul_comm. change (Zpos 4503599627370496) with (2 ^ 52).
    apply digits_mul_pow2; lia. }
  eapply pos_mag_weaken; [| |apply (binary_round_aux_lower _ _ _ hi)]; lia.
Qed.

Lemma full_match_score (user recipe : list string) (sa : bool) :
  Z.of_nat (length user) < 2 ^ 63 → Z.of_nat (length recipe) < 2 ^ 53 →
  (∀ r, r ∈ recipe → normalize r ∈ augmented_user_set user) →
  ingredient_match_score user recipe sa true 0.2 = 1%float.
Proof.
  intros Hu Hr Hall. destruct recipe as [|r0 recipe0] eqn:Erec; [done|].
  rewrite <- Erec in *. assert (recipe ≠ []) as Hne by (by rewrite Erec).
  clear Erec r0 recipe0.
  assert (Z.of_nat (length recipe) < 2 ^ 63) as Hr'
    by (change (2 ^ 63) with (2 ^ 53 * 1024); lia).
  rewrite flexible_score_unfold by done.
  assert (matched_sum (augmented_user_set user) sa recipe / of_len (length recipe)
          = 1)%float as ->.
  { apply Prim2SF_inj. rewrite FloatAxioms.div_spec.
    pose proof (fold_direct_whole (augmented_user_set user) sa recipe 0%float 0 Hall
                  ltac:(lia) ltac:(lia) ltac:(done)) as Hm.
    rewrite Z.add_0_l in Hm. fold (matched_sum (augmented_user_set user) sa recipe) in Hm.
    rewrite (SF_whole_unique _ _ _ Hm (of_len_whole _ Hr)).
    pose proof (of_len_pos (length recipe) ltac:(by destruct recipe) Hr') as Hp.
    destruct (Prim2SF (of_len (length recipe))) as [| | |[] m e]; try done.
    by rewrite SFdiv_self. }
  assert (Z.of_nat (size (user_explicit user)) < 2 ^ 63) as Hs.
  { unfold user_explicit.
    pose proof (size_list_to_set_le (normalize <$> user)) as H.
    rewrite length_fmap in H. lia. }
  pose proof (mul_one_pos_mag _ 1 66 (bonus_factor_pos _ recipe Hs Hr')
                ltac:(lia) ltac:(lia)) as Hf.
  unfold py_min. destruct (1 <? _)%float eqn:E; [done|].
  by apply (at_least_one_not_above _ (66 + 1)).
Qed.

(** X25.  A recipe all of whose ingredients the user has, as named or as
    defaults, scores exactly 1.0 in the flexible mode; so a recipe that
    passes the strict gate has the full score in the flexible mode as
    well. *)
Theorem full_match_scores_one (user recipe : list string) (sa sa' : bool) (beta : float) :
  Z.of_nat (length user) < 2 ^ 63 → Z.of_nat (length recipe) < 2 ^ 53 →
  ((∀ r, r ∈ recipe → normalize r ∈ augmented_user_set user) →
     ingredient_match_score user recipe sa true 0.2 = 1%float) ∧
  (ingredient_match_score user recipe sa' false beta = 1%float →
     ingredient_match_score user recipe sa true 0.2 = 1%float).
Proof.
  intros Hu Hr. split; [by apply full_match_score|].
  intros H1. apply full_match_score; [done..|].
  destruct (strict_feasible_dec user recipe) as [Hf|Hf].
  - intros r Hin. unfold augmented_user_set. apply elem_of_union.
    destruct (decide (normalize r ∈ DEFAULT_INGREDIENTS)) as [Hd|Hd]; [by right|left].
    apply elem_of_user_explicit. by apply Hf.
  - rewrite (strict_score_infeasible user recipe sa' beta Hf) in H1.
    discriminate (f_equal PrimFloat.is_zero H1).
Qed.

(** X26.  A recipe with at least one ingredient, none of which the user has or
    can replace, scores exactly 0.0 in the flexible mode. *)
Theorem no_match_scores_zero (user recipe : list string) (sa : bool) :
  recipe ≠ [] →
  Z.of_nat (length user) < 2 ^ 63 → Z.of_nat (length recipe) < 2 ^ 63 →
  (∀ r, r ∈ recipe →
     (normalize r ∉ augmented_user_set user) ∧
     (sa = false ∨ SUBSTITUTIONS !! normalize r = None ∨
      ∃ subs, SUBSTITUTIONS !! normalize r = Some subs ∧
              ∀ s, s ∈ subs → normalize s ∉ augmented_user_set user)) →
  ingredient_match_score user recipe sa true 0.2 = 0%float.
Proof.
  intros Hne Hu Hr Hall. rewrite flexible_score_unfold by done.
  unfold matched_sum. rewrite fold_no_match by done.
  assert (Z.of_nat (size (user_explicit user)) < 2 ^ 63) as Hs.
  { unfold user_explicit.
    pose proof (size_list_to_set_le (normalize <$> user)) as H.
    rewrite length_fmap in H. lia. }
  assert (0 / of_len (length recipe) = 0)%float as ->.
  { apply Prim2SF_inj. rewrite FloatAxioms.div_spec.
    pose proof (of_len_pos (length recipe) ltac:(by destruct recipe) Hr) as Hp.
    by destruct (Prim2SF (of_len (length recipe))) as [| | |[] m e]. }
  assert (0 * (1 + 0.2 * bonus_of (user_explicit user) recipe) = 0)%float as ->.
  { apply Prim2SF_inj. rewrite FloatAxioms.mul_spec.
    pose proof (bonus_factor_pos _ recipe Hs Hr) as Hp.
    by destruct (Prim2SF (1 + 0.2 * bonus_of _ _)) as [| | |[] m e]. }
  reflexivity.
Qed.
End Exact64.

(** ** Instances of the further properties *)

Lemma insert_desc_perm (c : candidate) (l : list candidate) : insert_desc c l ≡ₚ c :: l.
Proof.
  induction l as [|d l IH]; [done|]. cbn.
  destruct (_ <? _)%float; [|done]. rewrite IH. apply perm_swap.
Qed.

Lemma insertion_sort_perm (l : list candidate) : insertion_sort l ≡ₚ l.
Proof.
  induction l as [|c l IH]; [done|]. cbn. by rewrite insert_desc_perm, IH.
Qed.

Section MoreExamples.
Import Sample SampleDisk.
Local Open Scope float_scope.

Lemma tab_keeps_names_distinct_witness :
  NoDup ["tomato"; "onion"] ∧
  NoDup (add_detected ["tomato"; "onion"] [("onion", 0.8); ("garlic", 0.7)]) ∧
  NoDup (remove_pressed pressed_first ["tomato"; "onion"]) ∧
  NoDup (update_ingredients "Garlic, -onion" ["tomato"; "onion"]) ∧
  NoDup (combined_ingredients shopping_prefs ["tomato"; "onion"] ["onion"; "rice"]
           ["milk"] true true).
Proof.
  assert (NoDup ["tomato"; "onion"]) as H
    by (apply (bool_decide_unpack (NoDup ["tomato"; "onion"])); vm_compute; exact I).
  split; [exact H|].
  exact (tab_keeps_names_distinct shopping_prefs ["tomato"; "onion"]
           [("onion", 0.8); ("garlic", 0.7)] pressed_first "Garlic, -onion"
           ["onion"; "rice"] ["milk"] true true H).
Defined.


Lemma load_model_files_reads_existing_files_witness :
  on_disk (join ai_models_dir "recipe_model_tf") = true ∧
  (∃ p, (on_disk p = true ∧
         (p = join models_dir "recipe_database.pkl" ∨
          on_disk (join models_dir "recipe_database.pkl") = false ∧
          p = join ai_models_dir "recipe_database.pkl")) ∧
        pickled_table p = Some corpus).
Proof.
  assert (load_model_files join on_disk saved_model encoder classifier pickled_table
            csv_table = inr loaded_files) as H by (vm_compute; reflexivity).
  destruct (load_model_files_reads_existing_files join on_disk saved_model encoder
              classifier pickled_table csv_table loaded_files H)
    as (H1 & _ & _ & _ & _ & [H6|[H6 _]]).
  - split; [exact H1|exact H6].
  - discriminate (H6 "ai model/recipe_database.pkl" ltac:(vm_compute; reflexivity)).
Defined.

Lemma missing_file_gives_empty_result_witness :
  get_recommendations_from_files join nothing_on_disk saved_model encoder classifier
    pickled_table csv_table elements insertion_sort strict_prefs = (empty_result, []).
Proof.
  apply missing_file_gives_empty_result. left. reflexivity.
Defined.

Lemma batching_is_transparent_witness :
  corpus_filter (always "French") (always "Snacks") corpus strict_prefs [] =
  (Returned
     (filter (λ r, py_lower (predicted_cuisine r) = py_lower (cuisine strict_prefs) ∧
                   py_lower (predicted_meal_type r) = selected_meal_type strict_prefs)
        ((λ r, {| l_row := prepare r; predicted_cuisine := "French";
                  predicted_meal_type := "Snacks" |}) <$> corpus)),
   [] ++ (CuisinePredict <$> batches (ingredients_raw_text <$> (prepare <$> corpus)))
      ++ (MealPredict <$> batches (full_text <$> (prepare <$> corpus)))).
Proof.
  apply (batching_is_transparent (always "French") (always "Snacks") corpus strict_prefs []
           (λ _, "French") (λ _, "Snacks")); reflexivity.
Defined.

Lemma get_recommendations_reads_five_things_witness :
  get_recommendations (always "French") (always "snacks") relevance classes
    elements insertion_sort corpus strict_prefs =
  get_recommendations (always "French") (always "snacks") relevance classes
    elements insertion_sort corpus loud_prefs.
Proof.
  apply get_recommendations_reads_five_things; reflexivity.
Defined.

Lemma returned_rows_match_the_request_witness :
  ∃ top rest log,
    get_recommendations (always "French") (always "snacks") relevance classes
      elements insertion_sort corpus shopping_prefs = ((Some top, Some rest), log) ∧
    ∀ c, c ∈ top :: rest →
      (∃ r, r ∈ corpus ∧ l_row (c_row c) = prepare r) ∧
      py_lower (predicted_cuisine (c_row c)) = py_lower (cuisine shopping_prefs) ∧
      py_lower (predicted_meal_type (c_row c)) = selected_meal_type shopping_prefs.
Proof.
  destruct (get_recommendations (always "French") (always "snacks") relevance classes
              elements insertion_sort corpus shopping_prefs)
    as [[[top|] others] log] eqn:E; [|vm_compute in E; discriminate E].
  destruct (returned_rows_match_the_request (always "French") (always "snacks") relevance
              classes elements insertion_sort corpus shopping_prefs top others log
              insertion_sort_perm E) as (rest & -> & H).
  exists top, rest, log. split; [reflexivity|exact H].
Defined.

Lemma returned_rows_scores_witness :
  ∃ top rest log,
    get_recommendations (always "French") (always "snacks") relevance classes
      elements insertion_sort corpus strict_prefs = ((Some top, Some rest), log) ∧
    ∀ c, c ∈ top :: rest →
      ingredient_score c = 1 ∧ final_score c = 1 * 0.95 + model_score c * 0.05.
Proof.
  destruct (get_recommendations (always "French") (always "snacks") relevance classes
              elements insertion_sort corpus strict_prefs)
    as [[[top|] others] log] eqn:E; [|vm_compute in E; discriminate E].
  destruct (returned_rows_scores (always "French") (always "snacks") relevance
              classes elements insertion_sort corpus strict_prefs top others log
              insertion_sort_perm E) as (rest & -> & H).
  exists top, rest, log. split; [reflexivity|]. intros c Hc.
  exact (proj2 (H c Hc) eq_refl).
Defined.

Lemma model_scores_go_by_recipe_id_witness :
  ∃ d, [set_model_score 0.75 tie_a; set_model_score 0.25 tie_b] !! 0%nat = Some d ∧
       c_row d = c_row tie_a ∧ ingredient_score d = ingredient_score tie_a ∧
       model_score d = 0.75.
Proof.
  destruct (model_scores_go_by_recipe_id classes [[0.25; 0.75]; [0.25; 0.75]]
              [tie_a; tie_b] [set_model_score 0.75 tie_a; set_model_score 0.25 tie_b]
              ltac:(vm_compute; reflexivity) 0%nat tie_a eq_refl)
    as (d & Hd & Hrow & Hscore & Hm).
  exists d. split; [done|]. split; [done|]. split; [done|].
  change (index_of (c_id tie_a) classes) with (Some 1%nat) in Hm.
  specialize (Hm 0%nat tie_a eq_refl eq_refl).
  assert (Some (model_score d) = Some 0.75) as [= ->]; [|done].
  rewrite <- Hm; [reflexivity|].
  intros [|[|q']] c'' Hq Hc''; [lia| |done].
  injection Hc'' as <-. by vm_compute.
Defined.

Lemma short_predictions_raise_witness :
  rank no_lines classes insertion_sort shopping_prefs [tie_a] [] =
  (Raised,
   [Infer ["flour water yeast Flour warm water mix bake"] [2]]).
Proof.
  exact (short_predictions_raise no_lines classes insertion_sort shopping_prefs [tie_a] []
           [] 0%nat tie_a 1%nat eq_refl eq_refl eq_refl eq_refl).
Defined.

Lemma wrong_label_count_gives_empty_result_witness :
  get_recommendations no_labels (always "snacks") relevance classes elements
    insertion_sort corpus strict_prefs =
  (empty_result, [CuisinePredict ["Flour warm water"; "egg"]]).
Proof.
  exact (wrong_label_count_gives_empty_result no_labels (always "snacks") relevance
           classes elements insertion_sort corpus strict_prefs [[]]
           eq_refl ltac:(discriminate)).
Defined.

Lemma unknown_meal_type_finds_nothing_witness :
  (get_recommendations (always "French") (always "snacks") relevance classes elements
     insertion_sort corpus dinner_prefs).1 = empty_result.
Proof.
  apply (unknown_meal_type_finds_nothing (always "French") (always "snacks") relevance
           classes elements insertion_sort corpus dinner_prefs).
  - rewrite !not_elem_of_cons. repeat split; try discriminate. apply not_elem_of_nil.
  - intros batch labels l [= <-] (x & -> & _)%list_elem_of_fmap. discriminate.
Defined.

Lemma full_match_scores_one_witness :
  ingredient_match_score ["flour"; "yeast"] ["Flour"; "salt"; "yeast"] true true 0.2 = 1.
Proof.
  destruct (full_match_scores_one ["flour"; "yeast"] ["Flour"; "salt"; "yeast"]
              true false 0.5 eq_refl eq_refl) as [_ H].
  apply H. vm_compute. reflexivity.
Defined.

Lemma no_match_scores_zero_witness :
  ingredient_match_score ["flour"] ["truffle"; "milk"] false true 0.2 = 0.
Proof.
  apply no_match_scores_zero; [discriminate|reflexivity|reflexivity|].
  intros r Hr. split; [|by left].
  repeat (apply elem_of_cons in Hr as [->|Hr];
          [apply (bool_decide_unpack (_ ∉ _)); vm_compute; exact I|]).
  by apply elem_of_nil in Hr.
Defined.
End MoreExamples.
